(** * PSD2 API Discovery: crawl scheduler, relevance scorer, link extractor
      and deduplicator, embedded from the JavaScript sources.

    - [Client]   : docs/js/api-discovery.js, first engine (scanWebsite)
    - [Portal]   : docs/js/api-discovery.js, second engine (deduplicateApis)
    - [Headless] : the Playwright scraper (analyzePageContent, extractLinks,
                   crawlSite, scrape)

    Numbers that the code counts with are [Z]. The limits on pages and on
    depth are options that the code takes as they come and only compares
    the counters with, so they are finite numbers that need not be whole:
    rationals [Q]. Scores are exact rationals [Q] (the threshold test of the
    client engine is checked against binary64 as well); JS strings are [string] restricted to ASCII; a JS
    [Set] used only for membership is a [gset]; a [Set] or [Map] whose
    iteration order is observed is a list in insertion order. *)

From Stdlib Require Import ZArith QArith Qminmax Qround String Ascii List Bool Lia.
From Stdlib Require Import Floats.
From stdpp Require Import base gmap strings list.

Open Scope string_scope.
Open Scope list_scope.
Set Warnings "-clear-no-such-hyp,-inexact-float".

(** ** JavaScript string primitives (ASCII) *)

Module JsString.

(** [c.toLowerCase()] on one ASCII character. *)
Definition lowerAscii (c : ascii) : ascii :=
  let n := nat_of_ascii c in
  if (65 <=? n)%nat && (n <=? 90)%nat then ascii_of_nat (n + 32) else c.

(** [s.toLowerCase()] *)
Fixpoint toLowerCase (s : string) : string :=
  match s with
  | EmptyString => EmptyString
  | String c s' => String (lowerAscii c) (toLowerCase s')
  end.

(** [s.startsWith(pat)] *)
Definition startsWith (s pat : string) : bool := String.prefix pat s.

(** [s.includes(pat)] *)
Fixpoint includes (s pat : string) : bool :=
  String.prefix pat s ||
  match s with
  | EmptyString => false
  | String _ s' => includes s' pat
  end.

(** [s.endsWith(pat)] *)
Definition endsWith (s pat : string) : bool :=
  let n := String.length s in
  let m := String.length pat in
  (m <=? n)%nat && String.eqb (String.substring (n - m) m s) pat.

(** [s.split(sep)[0]] for a one-character separator. *)
Fixpoint splitHead (sep : ascii) (s : string) : string :=
  match s with
  | EmptyString => EmptyString
  | String c s' => if Ascii.eqb c sep then EmptyString else String c (splitHead sep s')
  end.

(** [s.substring(0, n)] *)
Definition substring0 (n : nat) (s : string) : string := String.substring 0 n s.

(** [/pat/i.test(s)] for a pattern [pat] that is a lower-case literal. *)
Definition testLiteralI (pat s : string) : bool := includes (toLowerCase s) pat.

(** The character [c] does not occur in [s]. *)
Fixpoint lacks (c : ascii) (s : string) : bool :=
  match s with
  | EmptyString => true
  | String d s' => negb (Ascii.eqb d c) && lacks c s'
  end.

End JsString.
Import JsString.

(** ** JavaScript collections observed in insertion order *)

Module JsSet.

(** [set.has(x)] on a [Set] of strings kept in insertion order. *)
Definition has (x : string) (l : list string) : bool := existsb (String.eqb x) l.

(** [set.add(x)] *)
Definition add (x : string) (l : list string) : list string :=
  if has x l then l else l ++ [x].

(** [new Set(xs)], then [Array.from] *)
Definition ofList (xs : list string) : list string := fold_left (fun acc x => add x acc) xs [].

End JsSet.

(** ** The platform's URL class

    [new URL(input, base)] either throws or yields an object with the
    components below; [href] is their serialisation and the fragment, when
    present, is its last component and starts with [#]. *)

Record URL := mkURL {
  protocol : string;      (* "https:" *)
  hostname : string;
  afterHost : string;     (* port, path and query *)
  hash : string           (* empty, or # and the fragment *)
}.

Definition href (u : URL) : string :=
  protocol u +:+ "//" +:+ hostname u +:+ afterHost u +:+ hash u.

(** [u.hash = ''] *)
Definition clearHash (u : URL) : URL :=
  {| protocol := protocol u; hostname := hostname u; afterHost := afterHost u; hash := "" |}.

(** [u.origin] *)
Definition origin (u : URL) : string := protocol u +:+ "//" +:+ hostname u.

(** The serialisation of scheme, host, path and query never contains [#]:
    the parser ends them at the first [#] of its input. *)
Definition urlWf (u : URL) : Prop :=
  lacks "#" (protocol u) = true /\ lacks "#" (hostname u) = true /\
  lacks "#" (afterHost u) = true.

(** ** Data model *)

Record ApiRecord := mkApi {
  name : string;
  api_type : string;
  url : string;
  source_page : string;
  description : string;
  version : string;
  documentation_url : string;
  swagger_url : string;
  sandbox_url : string;
  production_url : string;
  authentication : string;
  discovered_at : string;
  confidence_score : Q;
  keywords_found : list string
}.

Inductive ScanStatus := StatusSuccess | StatusError.

Record SiteScanResult := mkResult {
  res_url : string;
  res_status : ScanStatus;
  res_error : option string;
  res_pagesScanned : Z;
  res_apiRelatedPages : list string;
  res_apis : list ApiRecord
}.

Record FrontierEntry := mkEntry { entry_url : string; entry_depth : Z }.

(** The result pushed by the [catch] of the multi-site loops:
    [{url, status: 'error', error: error.message, apis: [], pagesScanned: 0}]. *)
Definition errorResult (url message : string) : SiteScanResult :=
  {| res_url := url; res_status := StatusError; res_error := Some message;
     res_pagesScanned := 0%Z; res_apiRelatedPages := []; res_apis := [] |}.

(** [arr.sort(cmp)]: a stable sort; [le a b] stands for [cmp(a, b) <= 0]. *)
Section StableSort.
Context {A : Type} (le : A -> A -> bool).

Fixpoint insertSorted (x : A) (l : list A) : list A :=
  match l with
  | [] => [x]
  | y :: l' => if le x y then x :: l else y :: insertSorted x l'
  end.

Definition sortBy (l : list A) : list A := foldr insertSorted [] l.
End StableSort.

(** [a > b] and [a >= b] on scores *)
Definition Qgtb (a b : Q) : bool := negb (Qle_bool a b).
Definition Qgeb (a b : Q) : bool := Qle_bool b a.

(** [n < limit] and [n > limit] for a counter [n] and a limit that need not
    be a whole number. *)
Definition belowLimit (n : Z) (limit : Q) : bool := negb (Qle_bool limit (inject_Z n)).
Definition aboveLimit (n : Z) (limit : Q) : bool := negb (Qle_bool (inject_Z n) limit).
Arguments belowLimit : simpl never.
Arguments aboveLimit : simpl never.

(** A JS call either returns a value or throws an [Error] with a message. *)
Inductive Completion (A : Type) : Type :=
| Returned (a : A)
| Threw (message : string).
Arguments Returned {A} a.
Arguments Threw {A} message.

(** What a seed contributes to [scanResults]: the result of its crawl, or
    the error result when the crawl threw. *)
Definition resultOf (url : string) (c : Completion SiteScanResult) : SiteScanResult :=
  match c with
  | Returned result => result
  | Threw message => errorResult url message
  end.

(** The completions of the crawls of the seeds, one after the other, each
    started in the world the previous one left; [None] when one of them
    runs out of fuel. *)
Fixpoint siteOutcomes {World : Type}
    (crawl : World -> string -> option (World * Completion SiteScanResult))
    (w : World) (urls : list string) : option (list (Completion SiteScanResult)) :=
  match urls with
  | [] => Some []
  | url :: urls' =>
      match crawl w url with
      | None => None
      | Some (w', c) =>
          match siteOutcomes crawl w' urls' with
          | None => None
          | Some cs => Some (c :: cs)
          end
      end
  end.

(** A parsed HTML document, as far as the engines look at it. *)
Record Anchor := mkAnchor { a_href : string; a_text : string }.

Record Document := mkDoc {
  doc_title : string;
  doc_bodyText : string;          (* doc.body?.textContent || '' *)
  doc_anchors : list Anchor       (* doc.querySelectorAll('a[href]') *)
}.

(** * The client-side engine (docs/js/api-discovery.js, first engine) *)

Module Client.

(** [static PSD2_KEYWORDS], in [Object.entries] order. *)
Definition PSD2_KEYWORDS : list (string * list string) :=
  [ ("general",
     ["psd2"; "open banking"; "openbanking"; "api portal"; "developer portal";
      "api documentation"; "api sandbox"; "tpp"; "third party provider";
      "berlin group"; "nextgenpsd2"; "stet"; "open bank project";
      "oauth"; "oauth2"; "openid connect"; "client credentials";
      "xs2a"; "access to account"]);
    ("ais",
     ["account information"; "ais api"; "ais-api"; "account access"; "balance";
      "transaction history"; "account list"; "aisp";
      "account information service"; "read account"; "get accounts";
      "/accounts"; "/balances"; "/transactions"]);
    ("pis",
     ["payment initiation"; "pis api"; "pis-api"; "pisp"; "initiate payment";
      "payment service"; "sepa payment"; "instant payment"; "bulk payment";
      "payment submission"; "/payments"; "/payment-initiations";
      "domestic payment"; "international payment"]);
    ("caf",
     ["confirmation of funds"; "caf api"; "caf-api"; "funds confirmation";
      "piis"; "card based payment"; "fundsconfirmation";
      "/funds-confirmations"; "available funds"]);
    ("technical",
     ["swagger"; "openapi"; "api specification"; "rest api"; "json api";
      "postman"; "api reference"; "api explorer"; "try it out";
      "sandbox environment"; "test environment"; "production api"]) ].

(** [static API_URL_PATTERNS]: each [/\/x/i] is kept as its literal. *)
Definition API_URL_PATTERNS : list string :=
  ["/api"; "/developer"; "/openbanking"; "/psd2";
   "/portal"; "/documentation"; "/docs"; "/swagger";
   "/sandbox"; "/tpp"; "/xs2a"; "/oauth"].

(** [isApiRelatedUrl(url)] *)
Definition isApiRelatedUrl (url : string) : bool :=
  existsb (fun pattern => testLiteralI pattern url) API_URL_PATTERNS.

(** The keyword loop of [analyzePage] over a taxonomy. *)
Definition findKeywordsIn (taxonomy : list (string * list string))
    (textContent : string) : list string :=
  flat_map (fun '(category, keywords) =>
              map (fun keyword => category +:+ ":" +:+ keyword)
                  (List.filter (fun keyword => includes textContent (toLowerCase keyword))
                               keywords))
           taxonomy.

Definition findKeywords : string -> list string := findKeywordsIn PSD2_KEYWORDS.

(** [calculateRelevance(keywordsFound, url)] *)
Definition calculateRelevance (keywordsFound : list string) (url : string) : Q :=
  let categoriesFound := JsSet.ofList (map (splitHead ":") keywordsFound) in
  let score := 0.0%Q in
  let score := if JsSet.has "general" categoriesFound then (score + 0.3)%Q else score in
  let score := if JsSet.has "ais" categoriesFound then (score + 0.25)%Q else score in
  let score := if JsSet.has "pis" categoriesFound then (score + 0.25)%Q else score in
  let score := if JsSet.has "caf" categoriesFound then (score + 0.2)%Q else score in
  let score := if JsSet.has "technical" categoriesFound then (score + 0.2)%Q else score in
  let score := if isApiRelatedUrl url then (score + 0.2)%Q else score in
  Qmin score 1.0%Q.

(** [calculateRelevance(keywordsFound, url)] once more, on the binary64
    numbers of the JS engine instead of exact rationals. *)
Definition calculateRelevance64 (keywordsFound : list string) (url : string) : float :=
  let categoriesFound := JsSet.ofList (map (splitHead ":") keywordsFound) in
  let score := 0.0%float in
  let score := if JsSet.has "general" categoriesFound then (score + 0.3)%float else score in
  let score := if JsSet.has "ais" categoriesFound then (score + 0.25)%float else score in
  let score := if JsSet.has "pis" categoriesFound then (score + 0.25)%float else score in
  let score := if JsSet.has "caf" categoriesFound then (score + 0.2)%float else score in
  let score := if JsSet.has "technical" categoriesFound then (score + 0.2)%float else score in
  let score := if isApiRelatedUrl url then (score + 0.2)%float else score in
  if PrimFloat.ltb score 1.0 then score else 1.0%float.

(** [determineApiTypes(keywordsFound)] *)
Definition determineApiTypes (keywordsFound : list string) : list string :=
  let keywordsStr := toLowerCase (String.concat " " keywordsFound) in
  let has3 a b c := includes keywordsStr a || includes keywordsStr b || includes keywordsStr c in
  let types := [] in
  let types := if has3 "ais" "account information" "aisp" then types ++ ["AIS"] else types in
  let types := if has3 "pis" "payment initiation" "pisp" then types ++ ["PIS"] else types in
  let types := if has3 "caf" "confirmation of funds" "piis" then types ++ ["CAF"] else types in
  let types :=
    if (length types =? 0)%nat && existsb (fun kw => startsWith kw "general:") keywordsFound
    then types ++ ["PSD2"] else types in
  if (0 <? length types)%nat then types else ["Unknown"].

(** [deduplicateApis(apis)]: the first record of each [url|api_type] key. *)
Definition dedupKey (api : ApiRecord) : string := url api +:+ "|" +:+ api_type api.

Definition deduplicateApis (apis : list ApiRecord) : list ApiRecord :=
  snd (fold_left
         (fun '(seen, unique) api =>
            let key := dedupKey api in
            if bool_decide (key ∈ seen) then (seen, unique)
            else ({[key]} ∪ seen, unique ++ [api]))
         apis ((∅ : gset string), [])).

(** The records that [deduplicateApis] keeps, given the keys already seen. *)
Fixpoint firstPerKey (seen : gset string) (apis : list ApiRecord) : list ApiRecord :=
  match apis with
  | [] => []
  | api :: rest =>
      if bool_decide (dedupKey api ∈ seen) then firstPerKey seen rest
      else api :: firstPerKey ({[dedupKey api]} ∪ seen) rest
  end.

(** What [analyzePage] returns. *)
Record PageResult := mkPage {
  pr_url : string;
  pr_title : string;
  isApiRelated : bool;
  relevanceScore : Q;
  keywordsFound : list string;
  links : list string;
  apiDocumentationUrls : list string;
  swaggerUrls : list string;
  pr_textContent : string
}.

Record RelatedPage := mkRelated {
  rp_url : string; rp_relevanceScore : Q; rp_keywords : list string }.

(** The constructor's options and the fields it sets. *)
Record Options := mkOptions { opt_maxDepth : option Q; opt_maxPages : option Q }.

Record Engine := mkEngine { maxDepth : Q; maxPages : Q }.

(** [x || d] on an optional number: [undefined] and [0] are falsy. *)
Definition orDefault (x : option Q) (d : Q) : Q :=
  match x with
  | None => d
  | Some n => if Qeq_bool n 0 then d else n
  end.

Definition constructor (options : Options) : Engine :=
  {| maxDepth := orDefault (opt_maxDepth options) 2;
     maxPages := orDefault (opt_maxPages options) 30 |}.

(** ** The crawl of one site

    The network, the proxies and the clock are a [World] threaded through
    every fetch; the DOM parser, the URL class and the text helpers that no
    property below depends on are taken as they come from the platform. *)

Record Platform {World : Type} := mkPlatform {
  parseURL : string -> option string -> Completion URL;
  (* fetchWithProxy, then DOMParser: the markup and the document *)
  fetchPage : World -> string -> World * Completion (string * Document);
  clock : World -> string;
  extractDescription : string -> string -> string;
  findApiDocumentation : Document -> string -> string -> list string;
  findSwaggerSpecs : Document -> string -> string -> string -> list string
}.
Arguments Platform World : clear implicits.

Section Crawl.
Context {World : Type} (platform : Platform World) (engine : Engine).

(** [extractLinks(doc, baseDomain, currentUrl)] *)
Definition extractLinks (doc : Document) (baseDomain currentUrl : string)
    : Completion (list string) :=
  match parseURL platform baseDomain None with
  | Threw m => Threw m
  | Returned base =>
      let baseHostname := hostname base in
      Returned
        (fold_left
           (fun links a =>
              let h := a_href a in
              if String.eqb h "" || startsWith h "#" || startsWith h "javascript:"
              then links
              else match parseURL platform h (Some currentUrl) with
                   | Threw _ => links
                   | Returned fullUrl =>
                       if String.eqb (hostname fullUrl) baseHostname
                       then JsSet.add (href (clearHash fullUrl)) links
                       else links
                   end)
           (doc_anchors doc) [])
  end.

(** [analyzePage(url, baseDomain)] *)
Definition analyzePage (w : World) (url baseDomain : string)
    : World * Completion PageResult :=
  match fetchPage platform w url with
  | (w', Threw m) => (w', Threw m)
  | (w', Returned (html, doc)) =>
      let textContent := toLowerCase (doc_bodyText doc) in
      let keywordsFound := findKeywords textContent in
      let relevanceScore := calculateRelevance keywordsFound url in
      match extractLinks doc baseDomain url with
      | Threw m => (w', Threw m)
      | Returned links =>
          (w', Returned
             {| pr_url := url;
                pr_title := doc_title doc;
                isApiRelated := Qgtb relevanceScore 0.2%Q;
                relevanceScore := relevanceScore;
                keywordsFound := keywordsFound;
                links := links;
                apiDocumentationUrls := findApiDocumentation platform doc baseDomain url;
                swaggerUrls := findSwaggerSpecs platform doc html baseDomain url;
                pr_textContent := substring0 5000 textContent |})
      end
  end.

(** [extractApis(pageResult, sourceUrl, baseDomain)] *)
Definition extractApis (w : World) (pageResult : PageResult)
    (sourceUrl baseDomain : string) : Completion (list ApiRecord) :=
  let apiTypes := determineApiTypes (keywordsFound pageResult) in
  match parseURL platform baseDomain None with
  | Threw m => Threw m
  | Returned base =>
      Returned
        (map (fun apiType =>
                {| name := hostname base +:+ " - " +:+ apiType;
                   url := baseDomain;
                   source_page := sourceUrl;
                   api_type := apiType;
                   description :=
                     extractDescription platform (pr_textContent pageResult) (pr_title pageResult);
                   version := "";
                   documentation_url := hd "" (apiDocumentationUrls pageResult);
                   swagger_url := hd "" (swaggerUrls pageResult);
                   sandbox_url := "";
                   production_url := "";
                   authentication := "";
                   discovered_at := clock platform w;
                   confidence_score := relevanceScore pageResult;
                   keywords_found := keywordsFound pageResult |})
             apiTypes)
  end.

(** The local variables of [scanWebsite]; [processed] is a history
    variable: the entries that got past the guard of the loop body, in
    order (one per [Scanning: ...] log line). *)
Record ScanState := mkState {
  visited : gset string;
  toVisit : list FrontierEntry;
  discoveredApis : list ApiRecord;
  apiRelatedPages : list RelatedPage;
  pagesScanned : Z;
  processed : list FrontierEntry;
  world : World
}.

(** The comparator of [toVisit.sort]: [aIsApi - bIsApi || a.depth - b.depth]. *)
Definition compareEntries (a b : FrontierEntry) : Z :=
  let aIsApi := if isApiRelatedUrl (entry_url a) then 0%Z else 1%Z in
  let bIsApi := if isApiRelatedUrl (entry_url b) then 0%Z else 1%Z in
  if (aIsApi - bIsApi =? 0)%Z then (entry_depth a - entry_depth b)%Z
  else (aIsApi - bIsApi)%Z.

Definition entryLe (a b : FrontierEntry) : bool := (compareEntries a b <=? 0)%Z.

(** The loop condition [toVisit.length > 0 && pagesScanned < this.maxPages]. *)
Definition loopCondition (s : ScanState) : bool :=
  (0 <? length (toVisit s))%nat && belowLimit (pagesScanned s) (maxPages engine).

(** One iteration of the [while] loop of [scanWebsite]; [None] when the
    loop condition is false. *)
Definition step (baseDomain : string) (s : ScanState) : option ScanState :=
  if negb (loopCondition s) then None else
  match toVisit s with
  | [] => None
  | current :: rest =>
      let currentUrl := entry_url current in
      let depth := entry_depth current in
      if bool_decide (currentUrl ∈ visited s) || aboveLimit depth (maxDepth engine) then
        Some {| visited := visited s; toVisit := rest;
                discoveredApis := discoveredApis s;
                apiRelatedPages := apiRelatedPages s;
                pagesScanned := pagesScanned s;
                processed := processed s; world := world s |}
      else
        let visited' := {[currentUrl]} ∪ visited s in
        let pagesScanned' := (pagesScanned s + 1)%Z in
        let processed' := processed s ++ [current] in
        match analyzePage (world s) currentUrl baseDomain with
        | (w', Threw _) =>
            Some {| visited := visited'; toVisit := rest;
                    discoveredApis := discoveredApis s;
                    apiRelatedPages := apiRelatedPages s;
                    pagesScanned := pagesScanned';
                    processed := processed'; world := w' |}
        | (w', Returned pageResult) =>
            let related :=
              if isApiRelated pageResult
              then apiRelatedPages s ++
                     [ {| rp_url := currentUrl;
                          rp_relevanceScore := relevanceScore pageResult;
                          rp_keywords := keywordsFound pageResult |} ]
              else apiRelatedPages s in
            let extracted :=
              if isApiRelated pageResult
              then extractApis w' pageResult currentUrl baseDomain
              else Returned [] in
            match extracted with
            | Threw _ =>
                Some {| visited := visited'; toVisit := rest;
                        discoveredApis := discoveredApis s;
                        apiRelatedPages := related;
                        pagesScanned := pagesScanned';
                        processed := processed'; world := w' |}
            | Returned apis =>
                let toVisit' :=
                  if belowLimit depth (maxDepth engine)
                  then sortBy entryLe
                         (rest ++
                          map (fun link => {| entry_url := link; entry_depth := (depth + 1)%Z |})
                              (List.filter (fun link => negb (bool_decide (link ∈ visited')))
                                           (links pageResult)))
                  else rest in
                Some {| visited := visited'; toVisit := toVisit';
                        discoveredApis := discoveredApis s ++ apis;
                        apiRelatedPages := related;
                        pagesScanned := pagesScanned';
                        processed := processed'; world := w' |}
            end
        end
  end.

(** The [while] loop, bounded by [fuel] iterations: [None] when the fuel
    runs out before the loop condition turns false. *)
Fixpoint runLoop (baseDomain : string) (fuel : nat) (s : ScanState) : option ScanState :=
  match step baseDomain s with
  | None => Some s
  | Some s' =>
      match fuel with
      | O => None
      | S fuel' => runLoop baseDomain fuel' s'
      end
  end.

(** The state after [n] iterations of the loop, or at its exit if that
    comes sooner. *)
Fixpoint stateAfter (baseDomain : string) (n : nat) (s : ScanState) : ScanState :=
  match n with
  | O => s
  | S n' =>
      match step baseDomain s with
      | None => s
      | Some s' => stateAfter baseDomain n' s'
      end
  end.

(** What one iteration does to the counters, the visited set and the
    history: the head entry is dropped and nothing else changes, or it is
    processed. *)
Inductive Transition (s s' : ScanState) : Prop :=
| Dropped e rest :
    toVisit s = e :: rest ->
    (entry_url e ∈ visited s \/ (maxDepth engine < inject_Z (entry_depth e))%Q) ->
    visited s' = visited s -> toVisit s' = rest ->
    discoveredApis s' = discoveredApis s ->
    apiRelatedPages s' = apiRelatedPages s ->
    pagesScanned s' = pagesScanned s ->
    processed s' = processed s ->
    Transition s s'
| Processed e rest :
    toVisit s = e :: rest ->
    entry_url e ∉ visited s ->
    (inject_Z (entry_depth e) <= maxDepth engine)%Q ->
    (inject_Z (pagesScanned s) < maxPages engine)%Q ->
    visited s' = {[entry_url e]} ∪ visited s ->
    pagesScanned s' = (pagesScanned s + 1)%Z ->
    processed s' = processed s ++ [e] ->
    Transition s s'.

(** The invariant of the loop. *)
Record Invariant (s : ScanState) : Prop := mkInvariant {
  inv_pages_lo : (0 <= pagesScanned s)%Z;
  inv_pages_hi : (pagesScanned s <= Z.max 0 (Qceiling (maxPages engine)))%Z;
  inv_depth : Forall (fun e => (inject_Z (entry_depth e) <= maxDepth engine)%Q) (processed s);
  inv_visited : Forall (fun e => entry_url e ∈ visited s) (processed s);
  inv_once : NoDup (map entry_url (processed s))
}.

Definition initialState (w : World) (startUrl : string) : ScanState :=
  {| visited := ∅;
     toVisit := [ {| entry_url := startUrl; entry_depth := 0%Z |} ];
     discoveredApis := []; apiRelatedPages := [];
     pagesScanned := 0%Z; processed := []; world := w |}.

Definition scanResult (startUrl : string) (s : ScanState) : SiteScanResult :=
  {| res_url := startUrl;
     res_status := StatusSuccess;
     res_error := None;
     res_pagesScanned := pagesScanned s;
     res_apiRelatedPages := map rp_url (apiRelatedPages s);
     res_apis := deduplicateApis (discoveredApis s) |}.

(** [scanWebsite(startUrl)] *)
Definition scanWebsite (fuel : nat) (w : World) (startUrl : string)
    : option (World * Completion SiteScanResult) :=
  match parseURL platform startUrl None with
  | Threw m => Some (w, Threw m)
  | Returned parsedUrl =>
      let baseDomain := protocol parsedUrl +:+ "//" +:+ hostname parsedUrl in
      match runLoop baseDomain fuel (initialState w startUrl) with
      | None => None
      | Some s => Some (world s, Returned (scanResult startUrl s))
      end
  end.

(** What [discoverApis] returns. *)
Record Report := mkReport {
  totalApisFound : nat;
  report_apis : list ApiRecord;
  scanResults : list SiteScanResult;
  scanTimestamp : string
}.

(** The [for] loop of [discoverApis(urls)] *)
Fixpoint discoverLoop (fuel : nat) (w : World) (urls : list string)
    (allApis : list ApiRecord) (results : list SiteScanResult)
    : option (World * list ApiRecord * list SiteScanResult) :=
  match urls with
  | [] => Some (w, allApis, results)
  | url :: urls' =>
      match scanWebsite fuel w url with
      | None => None
      | Some (w', Returned result) =>
          discoverLoop fuel w' urls' (allApis ++ res_apis result) (results ++ [result])
      | Some (w', Threw message) =>
          discoverLoop fuel w' urls' allApis (results ++ [errorResult url message])
      end
  end.

(** [discoverApis(urls)] *)
Definition discoverApis (fuel : nat) (w : World) (urls : list string)
    : option (World * Report) :=
  match discoverLoop fuel w urls [] [] with
  | None => None
  | Some (w', allApis, results) =>
      Some (w', {| totalApisFound := length allApis;
                   report_apis := allApis;
                   scanResults := results;
                   scanTimestamp := clock platform w' |})
  end.

End Crawl.

Arguments ScanState World : clear implicits.

End Client.

(** ** A JS [Map] with string keys, in insertion order *)

Module JsMap.
Section JsMap.
Context {V : Type}.

(** [map.get(key)] *)
Fixpoint get (key : string) (m : list (string * V)) : option V :=
  match m with
  | [] => None
  | (k, v) :: m' => if String.eqb k key then Some v else get key m'
  end.

(** [map.set(key, value)]: an existing key keeps its position. *)
Fixpoint set (key : string) (value : V) (m : list (string * V)) : list (string * V) :=
  match m with
  | [] => [(key, value)]
  | (k, v) :: m' =>
      if String.eqb k key then (k, value) :: m' else (k, v) :: set key value m'
  end.

(** [Array.from(map.values())] *)
Definition values (m : list (string * V)) : list V := map snd m.
End JsMap.
End JsMap.

(** * The second client engine (docs/js/api-discovery.js, second engine) *)

Module Portal.

Definition dedupKey (api : ApiRecord) : string := name api +:+ "|" +:+ api_type api.

(** The loop body of [deduplicateApis]. *)
Definition dedupStep (seen : list (string * ApiRecord)) (api : ApiRecord)
    : list (string * ApiRecord) :=
  let key := dedupKey api in
  match JsMap.get key seen with
  | None => JsMap.set key api seen
  | Some existing =>
      if Qgtb (confidence_score api) (confidence_score existing)
      then JsMap.set key api seen
      else seen
  end.

(** [deduplicateApis(apis)]: per [name|api_type] key, a record of highest
    confidence. *)
Definition deduplicateApis (apis : list ApiRecord) : list ApiRecord :=
  JsMap.values (fold_left dedupStep apis []).

(** [discoverApis] gathers the records of every site in [allApis] and
    returns [this.deduplicateApis(allApis)]. *)
Definition mergeSites (perSite : list (list ApiRecord)) : list ApiRecord :=
  deduplicateApis (concat perSite).

End Portal.

(** Every record of [l] has its key in the map [m], with a value at least
    as confident. *)
Definition dominated (m : list (string * ApiRecord)) (l : list ApiRecord) : Prop :=
  forall r, r ∈ l ->
    exists v, JsMap.get (Portal.dedupKey r) m = Some v /\
              (confidence_score r <= confidence_score v)%Q.

(** Every entry of the map [m] sits under the key that [key] gives it. *)
Definition keyedBy (key : ApiRecord -> string) (m : list (string * ApiRecord)) : Prop :=
  forall k v, (k, v) ∈ m -> k = key v.

(** * The headless-render scraper *)

Module Headless.

(** [isApiRelatedUrl(url)] *)
Definition apiPathKeywords : list string :=
  ["api"; "apis"; "developer"; "developers"; "docs"; "documentation";
   "reference"; "openbanking"; "open-banking"; "psd2"; "sandbox";
   "product"; "products"; "service"; "services"; "account"; "payment";
   "specification"; "swagger"; "openapi"].

Definition isApiRelatedUrl (url : string) : bool :=
  let lowerUrl := toLowerCase url in
  existsb (fun keyword => includes lowerUrl keyword) apiPathKeywords.

(** [(s.match(new RegExp(escaped(pat), 'g')) || []).length]: the matches of
    a literal, left to right and not overlapping; [skip] characters are
    still covered by the previous match. *)
Fixpoint countFrom (pat : string) (skip : nat) (s : string) {struct s} : Z :=
  match s with
  | EmptyString => if (skip =? 0)%nat && String.prefix pat EmptyString then 1%Z else 0%Z
  | String _ s' =>
      match skip with
      | S k => countFrom pat k s'
      | O => if String.prefix pat s
             then (1 + countFrom pat (String.length pat - 1) s')%Z
             else countFrom pat 0 s'
      end
  end.

(** The literal is matched with the [i] flag against lower-cased content. *)
Definition countMatches (keyword lowerContent : string) : Z :=
  countFrom (toLowerCase keyword) 0 lowerContent.

(** A JS number that may be [NaN]. *)
Definition JsNum := option Z.

Definition jsAdd (a b : JsNum) : JsNum :=
  match a, b with
  | Some x, Some y => Some (x + y)%Z
  | _, _ => None
  end.

(** [keywordMatches[category] += matches]; a missing property is
    [undefined], and [undefined + n] is [NaN]. *)
Definition bump (category : string) (matches : Z) (keywordMatches : list (string * JsNum))
    : list (string * JsNum) :=
  match JsMap.get category keywordMatches with
  | Some n => JsMap.set category (jsAdd n (Some matches)) keywordMatches
  | None => JsMap.set category None keywordMatches
  end.

(** The two nested keyword loops of [analyzePageContent]. *)
Definition keywordStep (lowerContent category : string)
    (acc : list (string * JsNum) * list string) (keyword : string)
    : list (string * JsNum) * list string :=
  let '(keywordMatches, foundKeywords) := acc in
  let matches := countMatches keyword lowerContent in
  if (0 <? matches)%Z
  then (bump category matches keywordMatches,
        if JsSet.has keyword foundKeywords then foundKeywords else foundKeywords ++ [keyword])
  else acc.

Definition keywordLoop (KEYWORDS : list (string * list string)) (lowerContent : string)
    (initial : list (string * JsNum)) : list (string * JsNum) * list string :=
  fold_left (fun acc '(category, keywords) =>
               fold_left (keywordStep lowerContent category) keywords acc)
            KEYWORDS (initial, []).

(** The distinct keywords that match, in the order of the configuration:
    [foundKeywords] once the loops are done. *)
Definition matchedKeywords (KEYWORDS : list (string * list string))
    (lowerContent : string) : list string :=
  snd (keywordLoop KEYWORDS lowerContent []).

(** [keywordMatches.k] read as a number: compared with [>], a missing or
    [NaN] value makes the comparison false. *)
Definition countOf (keywordMatches : list (string * JsNum)) (k : string) : JsNum :=
  match JsMap.get k keywordMatches with
  | Some n => n
  | None => None
  end.

Definition gtNum (a : JsNum) (b : Z) : bool :=
  match a with Some x => (b <? x)%Z | None => false end.

(** [Math.round(x * 100) / 100] *)
Definition round2 (x : Q) : Q := (inject_Z (Qfloor (x * 100 + (1 # 2))) / 100)%Q.

(** The primary type: [PSD2] unless a type category has strictly more matches. *)
Definition primaryType (psd2 : Z) (ais pis caf : JsNum) : string :=
  let apiType := "PSD2" in
  let maxMatches := psd2 in
  let '(apiType, maxMatches) :=
    if gtNum ais maxMatches then ("AIS", default 0%Z ais) else (apiType, maxMatches) in
  let '(apiType, maxMatches) :=
    if gtNum pis maxMatches then ("PIS", default 0%Z pis) else (apiType, maxMatches) in
  let '(apiType, maxMatches) :=
    if gtNum caf maxMatches then ("CAF", default 0%Z caf) else (apiType, maxMatches) in
  apiType.

(** The confidence score of both analyzers. *)
Definition confidence (totalMatches : Z) (url lowerTitle : string) : Q :=
  let confidenceScore := Qmin (inject_Z totalMatches / 20)%Q 1%Q in
  let confidenceScore :=
    if isApiRelatedUrl url then Qmin (confidenceScore + 0.2)%Q 1%Q else confidenceScore in
  if includes lowerTitle "api" || includes lowerTitle "psd2" || includes lowerTitle "open banking"
  then Qmin (confidenceScore + 0.1)%Q 1%Q else confidenceScore.

(** The configuration file and the helpers of the scraper that only build
    strings. *)
Record Helpers := mkHelpers {
  parseURL : string -> option string -> Completion URL;
  KEYWORDS : list (string * list string);   (* config.keywords, in Object.entries order *)
  getProviderName : string -> string;
  matchDescription : string -> string;      (* first capture of descPatterns, or empty *)
  findDocumentationUrl : string -> string -> string;   (* null is the empty string *)
  findSwaggerUrl : string -> string -> string
}.

Section Analyzer.
Variable helpers : Helpers.
Variable now : string.      (* new Date().toISOString() *)

(** The record pushed when the confidence reaches the threshold. *)
Definition report (url content apiType : string) (confidenceScore : Q)
    (foundKeywords : list string) : Completion (list ApiRecord) :=
  let providerName := getProviderName helpers url in
  let description := matchDescription helpers content in
  let description :=
    if String.eqb description ""
    then apiType +:+ " API from " +:+ providerName +:+ " - PSD2 compliant banking API"
    else description in
  match parseURL helpers url None with
  | Threw m => Threw m
  | Returned u =>
      Returned
        [ {| name := providerName +:+ " " +:+ apiType +:+ " API";
             api_type := apiType;
             url := origin u;
             source_page := url;
             description := description;
             version := "";
             documentation_url := findDocumentationUrl helpers content url;
             swagger_url := findSwaggerUrl helpers content url;
             sandbox_url := "";
             production_url := "";
             authentication := "";
             discovered_at := now;
             confidence_score := round2 confidenceScore;
             keywords_found := take 10 foundKeywords |} ]
  end.

(** [analyzePageContent(url, content, title)] of the scraper whose
    [keywordMatches] starts as [{psd2: 0, ais: 0, pis: 0, caf: 0}]. *)
Definition analyzePageContent (url content title : string) : Completion (list ApiRecord) :=
  let lowerContent := toLowerCase content in
  let lowerTitle := toLowerCase title in
  let '(keywordMatches, foundKeywords) :=
    keywordLoop (KEYWORDS helpers) lowerContent
      [("psd2", Some 0%Z); ("ais", Some 0%Z); ("pis", Some 0%Z); ("caf", Some 0%Z)] in
  let totalMatches := fold_left jsAdd (JsMap.values keywordMatches) (Some 0%Z) in
  match totalMatches with
  | None => Returned []          (* NaN: no comparison below succeeds *)
  | Some totalMatches =>
      if (totalMatches =? 0)%Z then Returned [] else
      let apiType :=
        primaryType (default 0%Z (countOf keywordMatches "psd2"))
                    (countOf keywordMatches "ais") (countOf keywordMatches "pis")
                    (countOf keywordMatches "caf") in
      let confidenceScore := confidence totalMatches url lowerTitle in
      if Qgeb confidenceScore 0.3%Q
      then report url content apiType confidenceScore foundKeywords
      else Returned []
  end.

(** [x || 0] on a count *)
Definition orZero (x : JsNum) : Z := default 0%Z x.

(** [analyzePageContent(url, content, title)] of the scraper whose
    [keywordMatches] starts at 0 for every category of the configuration
    and that counts [api_patterns] apart. *)
Definition analyzePageContent2 (url content title : string) : Completion (list ApiRecord) :=
  let lowerContent := toLowerCase content in
  let lowerTitle := toLowerCase title in
  let '(keywordMatches, foundKeywords) :=
    keywordLoop (KEYWORDS helpers) lowerContent
      (fold_left (fun km '(category, _) => JsMap.set category (Some 0%Z) km) (KEYWORDS helpers) []) in
  let apiTypeMatches :=
    (orZero (countOf keywordMatches "psd2") + orZero (countOf keywordMatches "ais") +
     orZero (countOf keywordMatches "pis") + orZero (countOf keywordMatches "caf"))%Z in
  let patternMatches := orZero (countOf keywordMatches "api_patterns") in
  if (apiTypeMatches =? 0)%Z && (patternMatches <? 5)%Z then Returned [] else
  let totalMatches := (apiTypeMatches + patternMatches)%Z in
  let apiType :=
    primaryType (orZero (countOf keywordMatches "psd2"))
                (Some (orZero (countOf keywordMatches "ais")))
                (Some (orZero (countOf keywordMatches "pis")))
                (Some (orZero (countOf keywordMatches "caf"))) in
  let apiType :=
    if (apiTypeMatches =? 0)%Z && (5 <=? patternMatches)%Z then "PSD2" else apiType in
  let confidenceScore := confidence totalMatches url lowerTitle in
  if Qgeb confidenceScore 0.3%Q
  then report url content apiType confidenceScore foundKeywords
  else Returned [].

End Analyzer.

(** [s.replace(pat, '')]: the first occurrence of a literal is removed. *)
Fixpoint removeFirst (pat s : string) {struct s} : string :=
  if String.prefix pat s then String.substring (String.length pat) (String.length s) s
  else match s with
       | EmptyString => EmptyString
       | String c s' => String c (removeFirst pat s')
       end.

(** [s.split(sep)] for a one-character separator. *)
Fixpoint splitOn (sep : ascii) (s : string) : list string :=
  match s with
  | EmptyString => [EmptyString]
  | String c s' =>
      if Ascii.eqb c sep then EmptyString :: splitOn sep s'
      else match splitOn sep s' with
           | [] => [String c EmptyString]
           | h :: t => String c h :: t
           end
  end.

(** [arr.slice(-2)] *)
Definition lastTwo {A} (l : list A) : list A := drop (length l - 2) l.

Definition dquote : ascii := ascii_of_nat 34.
Definition squote : ascii := ascii_of_nat 39.
Definition isQuote (c : ascii) : bool := Ascii.eqb c dquote || Ascii.eqb c squote.

(** The longest prefix of [s] free of quotes and of [#] (the character
    class of [hrefPattern]), and what follows it. *)
Fixpoint hrefRun (s : string) : string * string :=
  match s with
  | EmptyString => (EmptyString, EmptyString)
  | String c s' =>
      if isQuote c || Ascii.eqb c "#" then (EmptyString, s)
      else let '(run, rest) := hrefRun s' in (String c run, rest)
  end.

(** One attempt of [hrefPattern] at the start of [s]: [href=] in any case,
    a quote, a non-empty run of the class (the capture), a quote. Returns
    the capture and the length of the whole match. The class excludes the
    quotes, so only the longest run can be followed by one. *)
Definition matchHrefAt (s : string) : option (string * nat) :=
  if String.prefix "href=" (toLowerCase (String.substring 0 5 s)) then
    match String.substring 5 (String.length s) s with
    | String q after =>
        if isQuote q then
          match hrefRun after with
          | (EmptyString, _) => None
          | (run, String q' _) =>
              if isQuote q' then Some (run, 5 + 1 + String.length run + 1) else None
          | (_, EmptyString) => None
          end
        else None
    | EmptyString => None
    end
  else None.

(** The [while ((match = hrefPattern.exec(content)) !== null)] loop: the
    captures, left to right; [skip] characters belong to the last match. *)
Fixpoint hrefCaptures (skip : nat) (content : string) {struct content} : list string :=
  match content with
  | EmptyString => []
  | String _ content' =>
      match skip with
      | S k => hrefCaptures k content'
      | O => match matchHrefAt content with
             | Some (capture, len) => capture :: hrefCaptures (len - 1) content'
             | None => hrefCaptures 0 content'
             end
      end
  end.

Definition skipExtensions : list string :=
  [".pdf"; ".zip"; ".png"; ".jpg"; ".gif"; ".css"; ".js"; ".svg"].

(** The browser: each call may throw. [loadPage] stands for [page.goto],
    the wait, [page.content()] and [page.title()]. *)
Record Browser {World : Type} := mkBrowser {
  newContext : World -> World * Completion unit;
  closeContext : World -> World * Completion unit;
  newPage : World -> World * Completion unit;
  closePage : World -> World * Completion unit;
  loadPage : World -> string -> World * Completion (string * string);
  clock : World -> string
}.
Arguments Browser World : clear implicits.

(** [options], from the configuration file. *)
Record Options := mkOptions { maxDepth : Q; maxPagesPerSite : Q }.

Section Crawl.
Context {World : Type} (helpers : Helpers) (browser : Browser World) (options : Options).

(** [getBaseDomain(url)] *)
Definition getBaseDomain (url : string) : string :=
  match parseURL helpers url None with
  | Threw _ => url
  | Returned urlObj =>
      String.concat "." (lastTwo (splitOn "." (removeFirst "www." (hostname urlObj))))
  end.

(** [extractLinks(baseUrl, content)] *)
Definition extractLinks (baseUrl content : string) : list string :=
  let baseDomain := getBaseDomain baseUrl in
  fold_left
    (fun links capture =>
       match parseURL helpers capture (Some baseUrl) with
       | Threw _ => links
       | Returned u =>
           let link := href u in
           let linkDomain := getBaseDomain link in
           if String.eqb linkDomain baseDomain && negb (includes link "#") then
             if negb (existsb (fun ext => endsWith (toLowerCase link) ext) skipExtensions)
             then JsSet.add link links
             else links
           else links
       end)
    (hrefCaptures 0 content) [].

(** The local variables of [crawlSite]; [processed] is a history variable:
    the entries that got past the [visited] guard, in order (one per
    [Scanning (depth d): url] log line). *)
Record CrawlState := mkState {
  visited : gset string;
  toVisit : list FrontierEntry;
  apis : list ApiRecord;
  apiRelatedPages : list string;
  pagesScanned : Z;
  processed : list FrontierEntry;
  world : World
}.

(** The comparator of [links.sort]. *)
Definition compareLinks (a b : string) : Z :=
  let aIsApi := isApiRelatedUrl a in
  let bIsApi := isApiRelatedUrl b in
  if aIsApi && negb bIsApi then (-1)%Z
  else if negb aIsApi && bIsApi then 1%Z
  else 0%Z.

Definition linkLe (a b : string) : bool := (compareLinks a b <=? 0)%Z.

Definition loopCondition (s : CrawlState) : bool :=
  (0 <? length (toVisit s))%nat && belowLimit (pagesScanned s) (maxPagesPerSite options).

(** What one iteration of the [while] loop of [crawlSite] does. *)
Inductive StepResult :=
| Exit                                   (* the loop condition is false *)
| Next (s : CrawlState)
| Raise (w : World) (message : string).  (* an exception leaves the loop *)

(** The [finally { await page.close() }] of the loop body. *)
Definition closing (s : CrawlState) : StepResult :=
  match closePage browser (world s) with
  | (w, Threw m) => Raise w m
  | (w, Returned _) =>
      Next {| visited := visited s; toVisit := toVisit s; apis := apis s;
              apiRelatedPages := apiRelatedPages s; pagesScanned := pagesScanned s;
              processed := processed s; world := w |}
  end.

Definition step (s : CrawlState) : StepResult :=
  if negb (loopCondition s) then Exit else
  match toVisit s with
  | [] => Exit
  | current :: rest =>
      let url := entry_url current in
      let depth := entry_depth current in
      if bool_decide (url ∈ visited s) then
        Next {| visited := visited s; toVisit := rest; apis := apis s;
                apiRelatedPages := apiRelatedPages s; pagesScanned := pagesScanned s;
                processed := processed s; world := world s |}
      else
        let visited' := {[url]} ∪ visited s in
        let processed' := processed s ++ [current] in
        match newPage browser (world s) with
        | (w1, Threw m) => Raise w1 m
        | (w1, Returned _) =>
            match loadPage browser w1 url with
            | (w2, Threw _) =>
                closing {| visited := visited'; toVisit := rest; apis := apis s;
                           apiRelatedPages := apiRelatedPages s;
                           pagesScanned := pagesScanned s;
                           processed := processed'; world := w2 |}
            | (w2, Returned (content, title)) =>
                let pagesScanned' := (pagesScanned s + 1)%Z in
                match analyzePageContent helpers (clock browser w2) url content title with
                | Threw _ =>
                    closing {| visited := visited'; toVisit := rest; apis := apis s;
                               apiRelatedPages := apiRelatedPages s;
                               pagesScanned := pagesScanned';
                               processed := processed'; world := w2 |}
                | Returned foundApis =>
                    let found := (0 <? length foundApis)%nat in
                    let toVisit' :=
                      if belowLimit depth (maxDepth options)
                      then rest ++
                           map (fun link => {| entry_url := link; entry_depth := (depth + 1)%Z |})
                               (List.filter (fun link => negb (bool_decide (link ∈ visited')))
                                            (sortBy linkLe (extractLinks url content)))
                      else rest in
                    closing {| visited := visited'; toVisit := toVisit';
                               apis := if found then apis s ++ foundApis else apis s;
                               apiRelatedPages :=
                                 if found then apiRelatedPages s ++ [url]
                                 else apiRelatedPages s;
                               pagesScanned := pagesScanned';
                               processed := processed'; world := w2 |}
                end
            end
        end
  end.

(** The outcome of the [while] loop within [fuel] iterations. *)
Inductive LoopResult :=
| OutOfFuel
| Finished (s : CrawlState)
| Raised (w : World) (message : string).

Fixpoint runLoop (fuel : nat) (s : CrawlState) : LoopResult :=
  match step s with
  | Exit => Finished s
  | Raise w m => Raised w m
  | Next s' =>
      match fuel with
      | O => OutOfFuel
      | S fuel' => runLoop fuel' s'
      end
  end.

(** The state after [n] iterations of the loop, or where it stops if that
    comes sooner. *)
Fixpoint stateAfter (n : nat) (s : CrawlState) : CrawlState :=
  match n with
  | O => s
  | S n' =>
      match step s with
      | Next s' => stateAfter n' s'
      | _ => s
      end
  end.

(** The depth of an entry that the loop can hold: 0 for the seed, and one
    more than a depth below the limit for a link. *)
Definition depthOk (e : FrontierEntry) : Prop :=
  entry_depth e = 0%Z \/
  ((0 < entry_depth e)%Z /\ (inject_Z (entry_depth e) < maxDepth options + 1)%Q).

(** What one iteration that stays in the loop does: the head entry is
    dropped as already visited, or its page fails to load, or its page is
    scanned. *)
Inductive Transition (s s' : CrawlState) : Prop :=
| Dropped e rest :
    toVisit s = e :: rest ->
    entry_url e ∈ visited s ->
    visited s' = visited s -> toVisit s' = rest ->
    apis s' = apis s -> pagesScanned s' = pagesScanned s ->
    processed s' = processed s ->
    Transition s s'
| Failed e rest :
    toVisit s = e :: rest ->
    entry_url e ∉ visited s ->
    visited s' = {[entry_url e]} ∪ visited s -> toVisit s' = rest ->
    apis s' = apis s -> pagesScanned s' = pagesScanned s ->
    processed s' = processed s ++ [e] ->
    Transition s s'
| Scanned e rest :
    toVisit s = e :: rest ->
    entry_url e ∉ visited s ->
    (inject_Z (pagesScanned s) < maxPagesPerSite options)%Q ->
    visited s' = {[entry_url e]} ∪ visited s ->
    Forall (fun e' => e' ∈ rest \/
                      (entry_depth e' = (entry_depth e + 1)%Z /\
                       (inject_Z (entry_depth e) < maxDepth options)%Q)) (toVisit s') ->
    pagesScanned s' = (pagesScanned s + 1)%Z ->
    processed s' = processed s ++ [e] ->
    Transition s s'.

(** The invariant of the loop. *)
Record Invariant (s : CrawlState) : Prop := mkInvariant {
  inv_pages_lo : (0 <= pagesScanned s)%Z;
  inv_pages_hi : (pagesScanned s <= Z.max 0 (Qceiling (maxPagesPerSite options)))%Z;
  inv_frontier : Forall depthOk (toVisit s);
  inv_depth : Forall depthOk (processed s);
  inv_visited : Forall (fun e => entry_url e ∈ visited s) (processed s);
  inv_once : NoDup (map entry_url (processed s))
}.

Definition initialState (w : World) (startUrl : string) : CrawlState :=
  {| visited := ∅;
     toVisit := [ {| entry_url := startUrl; entry_depth := 0%Z |} ];
     apis := []; apiRelatedPages := [];
     pagesScanned := 0%Z; processed := []; world := w |}.

Definition crawlResult (startUrl : string) (s : CrawlState) : SiteScanResult :=
  {| res_url := startUrl;
     res_status := StatusSuccess;
     res_error := None;
     res_pagesScanned := pagesScanned s;
     res_apiRelatedPages := apiRelatedPages s;
     res_apis := apis s |}.

(** [crawlSite(browser, startUrl, options)]: [context.close()] runs in
    the [finally] whether or not the loop threw, and its own exception
    replaces the pending one. *)
Definition crawlSite (fuel : nat) (w : World) (startUrl : string)
    : option (World * Completion SiteScanResult) :=
  match newContext browser w with
  | (w0, Threw m) => Some (w0, Threw m)
  | (w0, Returned _) =>
      match runLoop fuel (initialState w0 startUrl) with
      | OutOfFuel => None
      | Raised w1 m =>
          match closeContext browser w1 with
          | (w2, Threw m') => Some (w2, Threw m')
          | (w2, Returned _) => Some (w2, Threw m)
          end
      | Finished s =>
          match closeContext browser (world s) with
          | (w2, Threw m') => Some (w2, Threw m')
          | (w2, Returned _) => Some (w2, Returned (crawlResult startUrl s))
          end
      end
  end.

(** The [for (const url of urls)] loop of [scrape]. *)
Fixpoint scrapeLoop (fuel : nat) (w : World) (urls : list string)
    (allApis : list ApiRecord) (scanResults : list SiteScanResult)
    : option (World * list ApiRecord * list SiteScanResult) :=
  match urls with
  | [] => Some (w, allApis, scanResults)
  | url :: urls' =>
      match crawlSite fuel w url with
      | None => None
      | Some (w', Returned result) =>
          scrapeLoop fuel w' urls' (allApis ++ res_apis result) (scanResults ++ [result])
      | Some (w', Threw message) =>
          scrapeLoop fuel w' urls' allApis (scanResults ++ [errorResult url message])
      end
  end.

End Crawl.

Arguments CrawlState World : clear implicits.
Arguments StepResult World : clear implicits.
Arguments LoopResult World : clear implicits.

(** The merge of [scrape]: existing records, then the new ones, into one
    [Map] keyed by [source_page]. *)
Abbreviation setPage :=
  (fun (apiMap : list (string * ApiRecord)) (api : ApiRecord) =>
     JsMap.set (source_page api) api apiMap).     (* apiMap.set(api.source_page, api) *)

Definition mergeApis (existingApis allApis : list ApiRecord) : list ApiRecord :=
  let apiMap := fold_left setPage existingApis [] in
  let apiMap := fold_left setPage allApis apiMap in
  JsMap.values apiMap.

(** [mergedApis.sort((a, b) => b.confidence_score - a.confidence_score)] *)
Definition sortByConfidence (apis : list ApiRecord) : list ApiRecord :=
  sortBy (fun a b => Qle_bool (confidence_score b) (confidence_score a)) apis.

End Headless.

(** * A small concrete platform, for running the engines on examples *)

Module Demo.

(** The part of [s] before the first [c], and the rest from [c] on. *)
Fixpoint breakAt (stop : ascii -> bool) (s : string) : string * string :=
  match s with
  | EmptyString => (EmptyString, EmptyString)
  | String c s' =>
      if stop c then (EmptyString, s)
      else let '(a, b) := breakAt stop s' in (String c a, b)
  end.

(** An absolute [scheme://host...] reference without its fragment. *)
Definition parseAbsolute (s fragment : string) : option URL :=
  let '(scheme, rest) := breakAt (Ascii.eqb ":") s in
  if String.prefix "://" rest && negb (String.eqb scheme "") then
    let '(host, path) :=
      breakAt (fun c => Ascii.eqb c "/" || Ascii.eqb c "?")
              (String.substring 3 (String.length rest) rest) in
    if String.eqb host "" then None
    else Some {| protocol := scheme +:+ ":"; hostname := host;
                 afterHost := if String.eqb path "" then "/" else path;
                 hash := fragment |}
  else None.

(** [new URL(input, base)] for absolute references and for references
    that start with [/]; anything else throws. *)
Definition parseURL (input : string) (base : option string) : Completion URL :=
  let '(s, fragment) := breakAt (Ascii.eqb "#") input in
  let fragment := if String.eqb fragment "#" then "" else fragment in
  match parseAbsolute s fragment with
  | Some u => Returned u
  | None =>
      match base with
      | Some b =>
          match parseAbsolute (fst (breakAt (Ascii.eqb "#") b)) "" with
          | Some bu =>
              if String.prefix "/" s
              then Returned {| protocol := protocol bu; hostname := hostname bu;
                               afterHost := s; hash := fragment |}
              else Threw "Invalid URL"
          | None => Threw "Invalid URL"
          end
      | None => Threw "Invalid URL"
      end
  end.

(** A web of static pages: the world is the number of fetches so far. *)
Definition fetchFrom (web : list (string * Document)) (w : nat) (url : string)
    : nat * Completion (string * Document) :=
  match JsMap.get url web with
  | Some doc => (S w, Returned ("", doc))
  | None => (S w, Threw "HTTP 404")
  end.

(** A bank site of three pages. *)
Definition homeDoc : Document :=
  {| doc_title := "Example Bank";
     doc_bodyText := "Welcome to our PSD2 developer portal: Account Information and Payment Initiation.";
     doc_anchors := [ {| a_href := "https://bank.example/docs/overview#section"; a_text := "Docs" |};
                      {| a_href := "/about"; a_text := "About" |};
                      {| a_href := "#top"; a_text := "Top" |};
                      {| a_href := "https://other.example/"; a_text := "Partner" |} ] |}.

Definition overviewDoc : Document :=
  {| doc_title := "Overview";
     doc_bodyText := "Swagger and OpenAPI reference for the sandbox environment.";
     doc_anchors := [ {| a_href := "/"; a_text := "Home" |} ] |}.

Definition aboutDoc : Document :=
  {| doc_title := "About";
     doc_bodyText := "Our branches and opening hours.";
     doc_anchors := [] |}.

Definition web : list (string * Document) :=
  [ ("https://bank.example/", homeDoc);
    ("https://bank.example/docs/overview", overviewDoc);
    ("https://bank.example/about", aboutDoc) ].

Definition clientPlatform : Client.Platform nat :=
  {| Client.parseURL := parseURL;
     Client.fetchPage := fetchFrom web;
     Client.clock := fun _ => "2024-01-01T00:00:00.000Z";
     Client.extractDescription := fun _ title => title;
     Client.findApiDocumentation := fun _ _ _ => [];
     Client.findSwaggerSpecs := fun _ _ _ _ => [] |}.

(** A configuration of the scraper with four categories. *)
Definition helpers : Headless.Helpers :=
  {| Headless.parseURL := parseURL;
     Headless.KEYWORDS :=
       [ ("psd2", ["psd2"; "open banking"; "berlin group"; "xs2a"; "tpp"]);
         ("ais", ["account information"; "balances"; "transactions"; "aisp"]);
         ("pis", ["payment initiation"; "sepa"; "pisp"]);
         ("caf", ["confirmation of funds"; "piis"]) ];
     Headless.getProviderName := fun _ => "Bank";
     Headless.matchDescription := fun _ => "";
     Headless.findDocumentationUrl := fun _ _ => "";
     Headless.findSwaggerUrl := fun _ _ => "" |}.

(** The rendered markup and the title of the pages the browser can load. *)
Definition rendered : list (string * (string * string)) :=
  [ ("https://bank.example/",
     ("<h1>PSD2 Open Banking</h1><a href='https://bank.example/docs/overview#section'>Docs</a> <a href='/about'>About</a> <a href='/logo.png'>Logo</a>",
      "Example Bank API"));
    ("https://bank.example/about",
     ("<p>Our branches and opening hours.</p><a href='/'>Home</a>", "About")) ].

Definition browser : Headless.Browser nat :=
  {| Headless.newContext := fun w => (w, Returned tt);
     Headless.closeContext := fun w => (w, Returned tt);
     Headless.newPage := fun w => (w, Returned tt);
     Headless.closePage := fun w => (w, Returned tt);
     Headless.loadPage := fun w url =>
       match JsMap.get url rendered with
       | Some page => (S w, Returned page)
       | None => (S w, Threw "net::ERR_NAME_NOT_RESOLVED")
       end;
     Headless.clock := fun _ => "2024-01-01T00:00:00.000Z" |}.

(** A page on which all fourteen keywords of the configuration occur, and
    the record that the scraper makes of it. *)
Definition richContent : string :=
  "PSD2 Open Banking by the Berlin Group: XS2A for every TPP. Account Information (balances, transactions) for an AISP; Payment Initiation (SEPA) for a PISP; Confirmation of Funds for a PIIS.".

Definition richRecord : ApiRecord :=
  {| name := "Bank PSD2 API"; api_type := "PSD2"; url := "https://bank.example";
     source_page := "https://bank.example/psd2";
     description := "PSD2 API from Bank - PSD2 compliant banking API"; version := "";
     documentation_url := ""; swagger_url := ""; sandbox_url := "";
     production_url := ""; authentication := "";
     discovered_at := "2024-01-01T00:00:00.000Z";
     confidence_score := 100 # 100;
     keywords_found :=
       ["psd2"; "open banking"; "berlin group"; "xs2a"; "tpp"; "account information";
        "balances"; "transactions"; "aisp"; "payment initiation"] |}.



End Demo.

(** * The relevance score as the specification words it *)

Module Spec.

Definition categoryWeights : list (string * Q) :=
  [("general", 0.30%Q); ("ais", 0.25%Q); ("pis", 0.25%Q); ("caf", 0.20%Q);
   ("technical", 0.20%Q)].

Definition apiPathPatterns : list string :=
  ["/api"; "/developer"; "/openbanking"; "/psd2"; "/portal"; "/documentation";
   "/docs"; "/swagger"; "/sandbox"; "/tpp"; "/xs2a"; "/oauth"].

(** The URL matches one of the path patterns, whatever the case. *)
Definition urlMatches (url : string) : bool :=
  existsb (fun p => includes (toLowerCase url) p) apiPathPatterns.

(** The category has at least one keyword that occurs in the page text. *)
Definition categoryMatched (text category : string) : bool :=
  existsb (fun '(c, keywords) =>
             String.eqb c category &&
             existsb (fun keyword => includes text (toLowerCase keyword)) keywords)
          Client.PSD2_KEYWORDS.

(** A tag [category:keyword] of the category is among the keywords found. *)
Definition tagged (keywordsFound : list string) (category : string) : bool :=
  existsb (fun tag => String.eqb category (splitHead ":" tag)) keywordsFound.

Definition clamp01 (x : Q) : Q := Qmax 0 (Qmin x 1).

(** The weights of the matched categories and the bonus of the URL, summed
    and clamped. *)
Definition score (matched : string -> bool) (url : string) : Q :=
  clamp01
    (fold_right Qplus 0%Q
       (map (fun '(c, weight) => if matched c then weight else 0%Q) categoryWeights)
     + (if urlMatches url then 0.20 else 0))%Q.

Definition relevance (text url : string) : Q := score (categoryMatched text) url.

End Spec.

(** * Properties *)

(** ** Strings and sets *)

Lemma has_add x y l : JsSet.has x (JsSet.add y l) = JsSet.has x l || String.eqb x y.
Proof.
  unfold JsSet.add. destruct (JsSet.has y l) eqn:Hy.
  - destruct (String.eqb_spec x y) as [->|]; [by rewrite Hy | by rewrite orb_false_r].
  - unfold JsSet.has. rewrite existsb_app. simpl. by rewrite orb_false_r.
Qed.

Lemma has_fold_add x xs acc :
  JsSet.has x (fold_left (fun a y => JsSet.add y a) xs acc)
  = JsSet.has x acc || existsb (String.eqb x) xs.
Proof.
  revert acc. induction xs as [|y xs IH]; intros acc; simpl.
  - by rewrite orb_false_r.
  - rewrite IH, has_add. by rewrite orb_assoc.
Qed.

Lemma has_ofList x xs : JsSet.has x (JsSet.ofList xs) = existsb (String.eqb x) xs.
Proof. unfold JsSet.ofList. by rewrite has_fold_add. Qed.

Lemma splitHead_tag category keyword :
  lacks ":" category = true ->
  splitHead ":" (category +:+ ":" +:+ keyword) = category.
Proof.
  induction category as [|c cs IH]; simpl; [done|].
  intros [Hc Hcs]%andb_prop. destruct (Ascii.eqb c ":"); [done|]. by rewrite IH.
Qed.

(** A category is among the tags of [findKeywordsIn] exactly when one of its
    keywords occurs in the text. *)
Lemma category_found taxonomy text c :
  Forall (fun entry => lacks ":" (fst entry) = true) taxonomy ->
  existsb (String.eqb c) (map (splitHead ":") (Client.findKeywordsIn taxonomy text))
  = existsb (fun '(c', keywords) =>
               String.eqb c' c &&
               existsb (fun keyword => includes text (toLowerCase keyword)) keywords)
            taxonomy.
Proof.
  induction 1 as [|[c' keywords] taxonomy Hc _ IH]; [done|].
  unfold Client.findKeywordsIn in *. simpl.
  rewrite map_app, existsb_app, IH. f_equal.
  simpl in Hc. clear IH. induction keywords as [|k ks IHk]; simpl.
  - by rewrite andb_false_r.
  - destruct (includes text (toLowerCase k)); simpl.
    + rewrite splitHead_tag by done. rewrite IHk.
      rewrite (String.eqb_sym c c'). by destruct (String.eqb c' c).
    + done.
Qed.

Lemma taxonomy_categories_plain :
  Forall (fun entry : string * list string => lacks ":" (fst entry) = true)
         Client.PSD2_KEYWORDS.
Proof. repeat constructor. Qed.

Lemma category_matched text c :
  JsSet.has c (JsSet.ofList (map (splitHead ":") (Client.findKeywords text)))
  = Spec.categoryMatched text c.
Proof.
  rewrite has_ofList. unfold Client.findKeywords.
  by rewrite (category_found _ _ _ taxonomy_categories_plain).
Qed.

Lemma Qgtb_lt a b : Qgtb a b = true <-> (b < a)%Q.
Proof.
  unfold Qgtb. rewrite negb_true_iff, <- not_true_iff_false, Qle_bool_iff.
  split; [apply Qnot_le_lt | apply Qlt_not_le].
Qed.

(** ** Counters and limits *)

Lemma belowLimit_lt n limit : belowLimit n limit = true <-> (inject_Z n < limit)%Q.
Proof.
  unfold belowLimit. rewrite negb_true_iff, <- not_true_iff_false, Qle_bool_iff.
  split; [apply Qnot_le_lt | apply Qlt_not_le].
Qed.

Lemma belowLimit_ge n limit : belowLimit n limit = false <-> (limit <= inject_Z n)%Q.
Proof. unfold belowLimit. rewrite negb_false_iff. apply Qle_bool_iff. Qed.

Lemma aboveLimit_gt n limit : aboveLimit n limit = true <-> (limit < inject_Z n)%Q.
Proof.
  unfold aboveLimit. rewrite negb_true_iff, <- not_true_iff_false, Qle_bool_iff.
  split; [apply Qnot_le_lt | apply Qlt_not_le].
Qed.

Lemma aboveLimit_le n limit : aboveLimit n limit = false <-> (inject_Z n <= limit)%Q.
Proof. unfold aboveLimit. rewrite negb_false_iff. apply Qle_bool_iff. Qed.

(** A whole number below a limit is below the limit rounded up. *)
Lemma below_ceiling n limit : (inject_Z n < limit)%Q <-> (n < Qceiling limit)%Z.
Proof.
  split.
  - intros Hlt. rewrite Zlt_Qlt. eapply Qlt_le_trans; [exact Hlt|apply Qle_ceiling].
  - intros Hlt. eapply Qle_lt_trans; [|apply Qceiling_lt]. rewrite <- Zle_Qle. lia.
Qed.

(** A limit that is a whole number is its own rounding. *)
Lemma ceiling_whole limit n : (limit == inject_Z n)%Q -> Qceiling limit = n.
Proof. intros ->. apply Qceiling_Z. Qed.

(** The score of [calculateRelevance] is the clamped sum of the weights of
    the categories that its [Set] of categories holds. *)
Lemma calculateRelevance_score keywordsFound url :
  (Client.calculateRelevance keywordsFound url
     == Spec.score (fun c => JsSet.has c (JsSet.ofList (map (splitHead ":") keywordsFound)))
                   url)%Q.
Proof.
  unfold Client.calculateRelevance, Spec.score.
  generalize (JsSet.ofList (map (splitHead ":") keywordsFound)). intros categoriesFound.
  change (Client.isApiRelatedUrl url) with (Spec.urlMatches url).
  cbn [map fold_right Spec.categoryWeights].
  destruct (JsSet.has "general" categoriesFound), (JsSet.has "ais" categoriesFound),
    (JsSet.has "pis" categoriesFound), (JsSet.has "caf" categoriesFound),
    (JsSet.has "technical" categoriesFound), (Spec.urlMatches url);
    vm_compute; reflexivity.
Qed.

Lemma score_ext matched matched' url :
  (forall c, matched c = matched' c) -> Spec.score matched url = Spec.score matched' url.
Proof.
  intros Hext. unfold Spec.score. cbn [map fold_right Spec.categoryWeights].
  by rewrite !Hext.
Qed.

Lemma calculateRelevance_tags keywordsFound url :
  (Client.calculateRelevance keywordsFound url
     == Spec.score (Spec.tagged keywordsFound) url)%Q.
Proof.
  rewrite calculateRelevance_score.
  rewrite (score_ext _ (Spec.tagged keywordsFound)); [reflexivity|].
  intros c. rewrite has_ofList. unfold Spec.tagged.
  induction keywordsFound as [|tag tags IH]; simpl; [done|]. by rewrite IH.
Qed.

(** On the tags of a text, it is the clamped sum of the weights of the
    categories with a keyword in the text. *)
Lemma calculateRelevance_spec text url :
  (Client.calculateRelevance (Client.findKeywords text) url == Spec.relevance text url)%Q.
Proof.
  rewrite calculateRelevance_score. unfold Spec.relevance.
  rewrite (score_ext _ (Spec.categoryMatched text)); [reflexivity|].
  intros c. apply category_matched.
Qed.

(** In binary64 the score passes the threshold [> 0.2] in exactly the cases
    in which the exact score does. *)
Lemma relevance_threshold_binary64 keywordsFound url :
  PrimFloat.ltb 0.2 (Client.calculateRelevance64 keywordsFound url)
  = Qgtb (Client.calculateRelevance keywordsFound url) 0.2.
Proof.
  unfold Client.calculateRelevance64, Client.calculateRelevance.
  generalize (JsSet.ofList (map (splitHead ":") keywordsFound)). intros categoriesFound.
  destruct (JsSet.has "general" categoriesFound), (JsSet.has "ais" categoriesFound),
    (JsSet.has "pis" categoriesFound), (JsSet.has "caf" categoriesFound),
    (JsSet.has "technical" categoriesFound), (Client.isApiRelatedUrl url);
    vm_compute; reflexivity.
Qed.

(** ** The crawl loop of the client engine *)

Section ClientCrawl.
Context {World : Type} (platform : Client.Platform World) (engine : Client.Engine).
Context (baseDomain : string).
Import Client.

Local Abbreviation step := (Client.step platform engine baseDomain).
Local Abbreviation runLoop := (Client.runLoop platform engine baseDomain).
Local Abbreviation stateAfter := (Client.stateAfter platform engine baseDomain).
Local Abbreviation Invariant := (@Client.Invariant World engine).
Local Abbreviation Transition := (@Client.Transition World engine).

Lemma client_step_transition s s' : step s = Some s' -> Transition s s'.
Proof.
  unfold Client.step, loopCondition.
  destruct (toVisit s) as [|e rest] eqn:Hq; simpl; [done|].
  destruct (belowLimit (pagesScanned s) (maxPages engine)) eqn:Hb; simpl; [|done].
  apply belowLimit_lt in Hb.
  destruct (bool_decide (entry_url e ∈ visited s)) eqn:Hv; simpl.
  { intros [= <-]. apply bool_decide_eq_true in Hv.
    by eapply Dropped; eauto. }
  apply bool_decide_eq_false in Hv.
  destruct (aboveLimit (entry_depth e) (maxDepth engine)) eqn:Hd.
  { intros [= <-]. apply aboveLimit_gt in Hd. by eapply Dropped; eauto. }
  apply aboveLimit_le in Hd.
  destruct (analyzePage _ _ _ _) as [w' [pageResult|m]].
  - destruct (if isApiRelated pageResult then _ else _) as [apis|m];
      intros [= <-]; by eapply Processed; eauto.
  - intros [= <-]. by eapply Processed; eauto.
Qed.

(** The loop stops exactly when its condition is false. *)
Lemma client_step_none s : step s = None <-> loopCondition engine s = false.
Proof.
  unfold Client.step. destruct (loopCondition engine s) eqn:Hc; simpl; [|done].
  split; [|done]. unfold loopCondition in Hc.
  destruct (toVisit s) as [|e rest]; [done|].
  destruct (_ || _); [done|].
  destruct (analyzePage _ _ _ _) as [w' [pageResult|m]]; [|done].
  by destruct (if isApiRelated pageResult then _ else _).
Qed.

Lemma client_invariant_initial w startUrl : Invariant (initialState w startUrl).
Proof. split; simpl; try constructor; lia. Qed.

Lemma client_invariant_step s s' : Invariant s -> step s = Some s' -> Invariant s'.
Proof.
  intros [Hlo Hhi Hd Hv Hn]
    [e rest Hq Hskip Hv' _ _ _ Hp' Hpr'|e rest Hq Hnv Hde Hlt Hv' Hp' Hpr']%client_step_transition.
  - split; rewrite ?Hp', ?Hpr', ?Hv'; done.
  - apply below_ceiling in Hlt. split; rewrite ?Hp', ?Hpr'.
    + lia.
    + lia.
    + apply Forall_app; split; [done|]. by apply Forall_singleton.
    + apply Forall_app; split.
      * eapply Forall_impl; [exact Hv|]. intros; set_solver.
      * apply Forall_singleton. set_solver.
    + rewrite map_app. apply NoDup_app. split; [done|]. split.
      * intros u Hu [->|[]%elem_of_nil]%elem_of_cons.
        apply list_elem_of_fmap in Hu as (e' & Heq & He').
        rewrite Forall_forall in Hv. apply Hnv. rewrite Heq. by apply Hv.
      * simpl. apply NoDup_singleton.
Qed.

Lemma client_invariant_stateAfter n s : Invariant s -> Invariant (stateAfter n s).
Proof.
  revert s. induction n as [|n IH]; intros s Hs; simpl; [done|].
  destruct (step s) as [s'|] eqn:Hstep; [|done]. eauto using client_invariant_step.
Qed.

Lemma client_visited_step s s' : step s = Some s' -> visited s ⊆ visited s'.
Proof. intros [? ? _ _ -> |? ? _ _ _ _ ->]%client_step_transition; set_solver. Qed.

Lemma client_visited_stateAfter n s : visited s ⊆ visited (stateAfter n s).
Proof.
  revert s. induction n as [|n IH]; intros s; simpl; [done|].
  destruct (step s) as [s'|] eqn:Hstep; [|done].
  etrans; [by apply client_visited_step|apply IH].
Qed.

(** The loop ends: a processed entry uses up budget, a dropped one
    shortens the frontier. *)
Lemma client_runLoop_terminates s : exists fuel s', runLoop fuel s = Some s'.
Proof.
  remember (Z.to_nat (Qceiling (maxPages engine) - pagesScanned s)) as budget eqn:Hb.
  revert s Hb. induction budget as [budget IHb] using lt_wf_ind. intros s Hb.
  remember (length (toVisit s)) as len eqn:Hl.
  revert s Hb Hl. induction len as [len IHl] using lt_wf_ind. intros s Hb Hl.
  destruct (step s) as [s'|] eqn:Hstep.
  - destruct (client_step_transition _ _ Hstep)
      as [e rest Hq _ _ Hq' _ _ Hp' _|e rest Hq _ _ Hlt _ Hp' _].
    + destruct (IHl (length (toVisit s'))) with (s := s') as (fuel & s'' & Hrun).
      * rewrite Hl, Hq, Hq'. simpl. lia.
      * by rewrite Hb, Hp'.
      * done.
      * exists (S fuel), s''. simpl. by rewrite Hstep.
    + destruct (IHb (Z.to_nat (Qceiling (maxPages engine) - pagesScanned s'))) with (s := s')
        as (fuel & s'' & Hrun).
      * apply below_ceiling in Hlt. rewrite Hb, Hp'. lia.
      * done.
      * exists (S fuel), s''. simpl. by rewrite Hstep.
  - exists 0%nat, s. simpl. by rewrite Hstep.
Qed.

Lemma client_runLoop_stateAfter fuel s s' :
  runLoop fuel s = Some s' -> exists n, s' = stateAfter n s /\ step s' = None.
Proof.
  revert s. induction fuel as [|fuel IH]; intros s; simpl.
  - destruct (step s) eqn:Hstep; [done|]. intros [= <-]. by exists 0%nat.
  - destruct (step s) as [s1|] eqn:Hstep.
    + intros (n & -> & Hn)%IH. exists (S n). simpl. by rewrite Hstep.
    + intros [= <-]. by exists 0%nat.
Qed.

End ClientCrawl.

(** ** The crawl loop of the headless scraper *)

Section HeadlessCrawl.
Context {World : Type} (helpers : Headless.Helpers) (browser : Headless.Browser World).
Context (options : Headless.Options).
Import Headless.

Local Abbreviation step := (Headless.step helpers browser options).
Local Abbreviation runLoop := (Headless.runLoop helpers browser options).
Local Abbreviation stateAfter := (Headless.stateAfter helpers browser options).
Local Abbreviation Invariant := (@Headless.Invariant World options).
Local Abbreviation Transition := (@Headless.Transition World options).

Lemma headless_closing s s' :
  closing browser s = Next s' ->
  visited s' = visited s /\ toVisit s' = toVisit s /\ apis s' = apis s /\
  apiRelatedPages s' = apiRelatedPages s /\ pagesScanned s' = pagesScanned s /\
  processed s' = processed s.
Proof.
  unfold closing. destruct (closePage browser (world s)) as [w [[]|m]]; [|done].
  by intros [= <-].
Qed.

Lemma headless_step_transition s s' : step s = Next s' -> Transition s s'.
Proof.
  unfold Headless.step, loopCondition.
  destruct (toVisit s) as [|e rest] eqn:Hq; simpl; [done|].
  destruct (belowLimit (pagesScanned s) (maxPagesPerSite options)) eqn:Hb; simpl; [|done].
  apply belowLimit_lt in Hb.
  destruct (bool_decide (entry_url e ∈ visited s)) eqn:Hv; simpl.
  { intros [= <-]. apply bool_decide_eq_true in Hv. by eapply Dropped; eauto. }
  apply bool_decide_eq_false in Hv.
  destruct (newPage browser (world s)) as [w1 [[]|m]]; [|done].
  destruct (loadPage browser w1 (entry_url e)) as [w2 [[content title]|m]].
  - destruct (analyzePageContent _ _ _ _ _) as [foundApis|m].
    + intros (Hv' & Hq' & _ & _ & Hp' & Hpr')%headless_closing.
      simpl in Hv', Hq', Hp', Hpr'.
      eapply Scanned; eauto. rewrite Hq'.
      destruct (belowLimit (entry_depth e) (maxDepth options)) eqn:Hd.
      * apply belowLimit_lt in Hd. apply Forall_app; split.
        -- apply Forall_forall. by left.
        -- apply Forall_forall. intros e' (l & -> & _)%list_elem_of_fmap. by right.
      * apply Forall_forall. by left.
    + intros (Hv' & Hq' & _ & _ & Hp' & Hpr')%headless_closing.
      simpl in Hv', Hq', Hp', Hpr'.
      eapply Scanned; eauto. rewrite Hq'. apply Forall_forall. by left.
  - intros (Hv' & Hq' & Ha' & _ & Hp' & Hpr')%headless_closing.
    simpl in Hv', Hq', Ha', Hp', Hpr'.
    by eapply Failed; eauto.
Qed.

(** The loop is left without an exception exactly when its condition is
    false. *)
Lemma headless_step_exit s : step s = Exit <-> loopCondition options s = false.
Proof.
  unfold Headless.step. destruct (loopCondition options s) eqn:Hc; simpl; [|done].
  split; [|done]. unfold loopCondition in Hc.
  destruct (toVisit s) as [|e rest]; [done|].
  destruct (bool_decide _); [done|].
  destruct (newPage browser (world s)) as [w1 [[]|m]]; [|done].
  unfold closing.
  destruct (loadPage browser w1 (entry_url e)) as [w2 [[content title]|m]].
  - destruct (analyzePageContent _ _ _ _ _) as [foundApis|m]; simpl;
      by destruct (closePage browser w2) as [w3 [[]|m']].
  - simpl. by destruct (closePage browser w2) as [w3 [[]|m']].
Qed.

Lemma headless_invariant_initial w startUrl : Invariant (initialState w startUrl).
Proof.
  split; simpl; try lia; repeat constructor; unfold depthOk; simpl; lia.
Qed.

Lemma headless_processed_step (s s' : CrawlState World) e rest :
  Invariant s -> toVisit s = e :: rest -> entry_url e ∉ visited s ->
  visited s' = {[entry_url e]} ∪ visited s ->
  processed s' = processed s ++ [e] ->
  Forall (depthOk options) (processed s') /\
  Forall (fun e => entry_url e ∈ visited s') (processed s') /\
  NoDup (map entry_url (processed s')).
Proof.
  intros [_ _ Hf Hd Hv Hn] Hq Hnv -> ->. rewrite Hq in Hf.
  apply Forall_cons in Hf as [He _]. split_and!.
  - apply Forall_app; split; [done|]. by apply Forall_singleton.
  - apply Forall_app; split.
    + eapply Forall_impl; [exact Hv|]. intros; set_solver.
    + apply Forall_singleton. set_solver.
  - rewrite map_app. apply NoDup_app. split; [done|]. split.
    + intros u Hu [->|[]%elem_of_nil]%elem_of_cons.
      apply list_elem_of_fmap in Hu as (e' & Heq & He').
      rewrite Forall_forall in Hv. apply Hnv. rewrite Heq. by apply Hv.
    + simpl. apply NoDup_singleton.
Qed.

Lemma headless_invariant_step s s' : Invariant s -> step s = Next s' -> Invariant s'.
Proof.
  intros Hinv Hstep. pose proof Hinv as [Hlo Hhi Hf Hd Hv Hn].
  destruct (headless_step_transition _ _ Hstep)
    as [e rest Hq Hin Hv' Hq' _ Hp' Hpr'
       |e rest Hq Hnv Hv' Hq' _ Hp' Hpr'
       |e rest Hq Hnv Hlt Hv' Hq' Hp' Hpr'].
  - rewrite Hq in Hf. apply Forall_cons in Hf as [_ Hf].
    split; rewrite ?Hp', ?Hpr', ?Hv', ?Hq'; done.
  - destruct (headless_processed_step s s' e rest) as (? & ? & ?); [done..|].
    rewrite Hq in Hf. apply Forall_cons in Hf as [_ Hf].
    split; rewrite ?Hp', ?Hq'; done.
  - destruct (headless_processed_step s s' e rest) as (? & ? & ?); [done..|].
    rewrite Hq in Hf. apply Forall_cons in Hf as [He Hf].
    apply below_ceiling in Hlt.
    split; rewrite ?Hp'; try done; try lia.
    eapply Forall_impl; [exact Hq'|]. intros e' [Hin|[Hd1 Hd2]].
    + rewrite Forall_forall in Hf. by apply Hf.
    + right. rewrite Hd1. split.
      * destruct He as [->|[? _]]; lia.
      * rewrite inject_Z_plus. change (inject_Z 1) with 1%Q. by apply Qplus_lt_l.
Qed.

Lemma headless_invariant_stateAfter n s : Invariant s -> Invariant (stateAfter n s).
Proof.
  revert s. induction n as [|n IH]; intros s Hs; simpl; [done|].
  destruct (step s) as [|s'|] eqn:Hstep; [done| |done].
  eauto using headless_invariant_step.
Qed.

Lemma headless_visited_step s s' : step s = Next s' -> visited s ⊆ visited s'.
Proof.
  intros [? ? _ _ -> |? ? _ _ -> |? ? _ _ _ ->]%headless_step_transition; set_solver.
Qed.

Lemma headless_visited_stateAfter n s : visited s ⊆ visited (stateAfter n s).
Proof.
  revert s. induction n as [|n IH]; intros s; simpl; [done|].
  destruct (step s) as [|s'|] eqn:Hstep; [done| |done].
  etrans; [by apply headless_visited_step|apply IH].
Qed.

(** The loop ends: a scanned page uses up budget, every other iteration
    shortens the frontier. *)
Lemma headless_runLoop_terminates s : exists fuel, runLoop fuel s <> OutOfFuel.
Proof.
  remember (Z.to_nat (Qceiling (maxPagesPerSite options) - pagesScanned s)) as budget eqn:Hb.
  revert s Hb. induction budget as [budget IHb] using lt_wf_ind. intros s Hb.
  remember (length (toVisit s)) as len eqn:Hl.
  revert s Hb Hl. induction len as [len IHl] using lt_wf_ind. intros s Hb Hl.
  destruct (step s) as [|s'|w m] eqn:Hstep.
  - exists 0%nat. simpl. by rewrite Hstep.
  - destruct (headless_step_transition _ _ Hstep)
      as [e rest Hq _ _ Hq' _ Hp' _|e rest Hq _ _ Hq' _ Hp' _|e rest Hq _ Hlt _ _ Hp' _].
    + destruct (IHl (length (toVisit s'))) with (s := s') as (fuel & Hrun).
      * rewrite Hl, Hq, Hq'. simpl. lia.
      * by rewrite Hb, Hp'.
      * done.
      * exists (S fuel). simpl. by rewrite Hstep.
    + destruct (IHl (length (toVisit s'))) with (s := s') as (fuel & Hrun).
      * rewrite Hl, Hq, Hq'. simpl. lia.
      * by rewrite Hb, Hp'.
      * done.
      * exists (S fuel). simpl. by rewrite Hstep.
    + destruct (IHb (Z.to_nat (Qceiling (maxPagesPerSite options) - pagesScanned s')))
        with (s := s') as (fuel & Hrun).
      * apply below_ceiling in Hlt. rewrite Hb, Hp'. lia.
      * done.
      * exists (S fuel). simpl. by rewrite Hstep.
  - exists 0%nat. simpl. by rewrite Hstep.
Qed.

Lemma headless_runLoop_stateAfter fuel s s' :
  runLoop fuel s = Finished s' -> exists n, s' = stateAfter n s /\ step s' = Exit.
Proof.
  revert s. induction fuel as [|fuel IH]; intros s; simpl.
  - destruct (step s) eqn:Hstep; [|done..]. intros [= <-]. by exists 0%nat.
  - destruct (step s) as [|s1|] eqn:Hstep.
    + intros [= <-]. by exists 0%nat.
    + intros (n & -> & Hn)%IH. exists (S n). simpl. by rewrite Hstep.
    + done.
Qed.

End HeadlessCrawl.

(** ** Results of a site crawl *)

Lemma client_scan_terminates {World} (platform : Client.Platform World) engine w startUrl :
  exists fuel, is_Some (Client.scanWebsite platform engine fuel w startUrl).
Proof.
  unfold Client.scanWebsite.
  destruct (Client.parseURL platform startUrl None) as [parsedUrl|m]; [|by exists 0%nat].
  destruct (client_runLoop_terminates platform engine
              (protocol parsedUrl +:+ "//" +:+ hostname parsedUrl)
              (Client.initialState w startUrl)) as (fuel & s' & Hrun).
  exists fuel. by rewrite Hrun.
Qed.

Lemma client_scan_state {World} (platform : Client.Platform World) engine fuel w startUrl w' r :
  Client.scanWebsite platform engine fuel w startUrl = Some (w', Returned r) ->
  exists baseDomain n,
    r = Client.scanResult startUrl
          (Client.stateAfter platform engine baseDomain n (Client.initialState w startUrl)).
Proof.
  unfold Client.scanWebsite.
  destruct (Client.parseURL platform startUrl None) as [parsedUrl|m]; [|done].
  destruct (Client.runLoop _ _ _ _ _) as [s|] eqn:Hrun; [|done].
  intros [= <- <-]. apply client_runLoop_stateAfter in Hrun as (n & -> & _). eauto.
Qed.

Lemma headless_crawl_terminates {World} helpers (browser : Headless.Browser World)
    options w startUrl :
  exists fuel, is_Some (Headless.crawlSite helpers browser options fuel w startUrl).
Proof.
  unfold Headless.crawlSite.
  destruct (Headless.newContext browser w) as [w0 [[]|m]]; [|by exists 0%nat].
  destruct (headless_runLoop_terminates helpers browser options
              (Headless.initialState w0 startUrl)) as (fuel & Hrun).
  exists fuel. destruct (Headless.runLoop _ _ _ _ _) as [|s|w1 m]; [done|..];
    by destruct (Headless.closeContext browser _) as [w2 [[]|m']].
Qed.

Lemma headless_crawl_state {World} helpers (browser : Headless.Browser World)
    options fuel w startUrl w' r :
  Headless.crawlSite helpers browser options fuel w startUrl = Some (w', Returned r) ->
  exists w0 n,
    r = Headless.crawlResult startUrl
          (Headless.stateAfter helpers browser options n (Headless.initialState w0 startUrl)).
Proof.
  unfold Headless.crawlSite.
  destruct (Headless.newContext browser w) as [w0 [[]|m]]; [|done].
  destruct (Headless.runLoop _ _ _ _ _) as [|s|w1 m] eqn:Hrun; [done|..].
  - destruct (Headless.closeContext browser _) as [w2 [[]|m']]; [|done].
    intros [= <- <-]. apply headless_runLoop_stateAfter in Hrun as (n & -> & _). eauto.
  - by destruct (Headless.closeContext browser _) as [w2 [[]|m']].
Qed.

(** C1 (as amended). The number of pages scanned is never negative and
    never above the page budget rounded up to a whole number, or above 0
    when the budget is negative: at every iteration of the crawl loop and in
    the result that the crawl returns, for the client engine and for the
    headless scraper; and both crawls do return. So the count stays below
    the budget plus one, it is 0 when the budget is not positive, and it is
    within the budget when the budget is a whole number that is not
    negative. *)
Theorem pages_scanned_within_budget :
  (forall World (platform : Client.Platform World) engine baseDomain w startUrl n,
     (0 <= Client.pagesScanned
             (Client.stateAfter platform engine baseDomain n (Client.initialState w startUrl))
        <= Z.max 0 (Qceiling (Client.maxPages engine)))%Z) /\
  (forall World (platform : Client.Platform World) engine w startUrl,
     (exists fuel, is_Some (Client.scanWebsite platform engine fuel w startUrl)) /\
     (forall fuel w' r,
        Client.scanWebsite platform engine fuel w startUrl = Some (w', Returned r) ->
        (0 <= res_pagesScanned r <= Z.max 0 (Qceiling (Client.maxPages engine)))%Z)) /\
  (forall World helpers (browser : Headless.Browser World) options w startUrl n,
     (0 <= Headless.pagesScanned
             (Headless.stateAfter helpers browser options n (Headless.initialState w startUrl))
        <= Z.max 0 (Qceiling (Headless.maxPagesPerSite options)))%Z) /\
  (forall World helpers (browser : Headless.Browser World) options w startUrl,
     (exists fuel, is_Some (Headless.crawlSite helpers browser options fuel w startUrl)) /\
     (forall fuel w' r,
        Headless.crawlSite helpers browser options fuel w startUrl = Some (w', Returned r) ->
        (0 <= res_pagesScanned r <= Z.max 0 (Qceiling (Headless.maxPagesPerSite options)))%Z)) /\
  (forall budget pages,
     (0 <= pages <= Z.max 0 (Qceiling budget))%Z ->
     ((budget <= 0)%Q -> pages = 0%Z) /\
     ((0 < budget)%Q -> (inject_Z pages < budget + 1)%Q) /\
     (forall whole, (0 <= whole)%Z -> (budget == inject_Z whole)%Q ->
                    (inject_Z pages <= budget)%Q)).
Proof.
  split_and!.
  - intros.
    by destruct (client_invariant_stateAfter platform engine baseDomain n _
                   (client_invariant_initial engine w startUrl)).
  - intros. split; [apply client_scan_terminates|].
    intros fuel w' r (baseDomain & n & ->)%client_scan_state. simpl.
    by destruct (client_invariant_stateAfter platform engine baseDomain n _
                   (client_invariant_initial engine w startUrl)).
  - intros.
    by destruct (headless_invariant_stateAfter helpers browser options n _
                   (headless_invariant_initial options w startUrl)).
  - intros. split; [apply headless_crawl_terminates|].
    intros fuel w' r (w0 & n & ->)%headless_crawl_state. simpl.
    by destruct (headless_invariant_stateAfter helpers browser options n _
                   (headless_invariant_initial options w0 startUrl)).
  - intros budget pages [Hlo Hhi]. split_and!.
    + intros Hle. apply Qceiling_resp_le in Hle. change (Qceiling 0) with 0%Z in Hle. lia.
    + intros Hpos.
      assert (0 < Qceiling budget)%Z as Hc.
      { rewrite Zlt_Qlt. eapply Qlt_le_trans; [exact Hpos|apply Qle_ceiling]. }
      assert (pages - 1 < Qceiling budget)%Z as Hlt by lia.
      apply below_ceiling in Hlt.
      replace pages with (pages - 1 + 1)%Z by lia.
      rewrite inject_Z_plus. change (inject_Z 1) with 1%Q. by apply Qplus_lt_l.
    + intros whole Hwhole Heq. rewrite (ceiling_whole _ _ Heq) in Hhi.
      rewrite Heq, <- Zle_Qle. lia.
Qed.

(** With a budget of two and a half pages the scan of the example site,
    which has three, scans all three: the count is within the budget
    rounded up. *)
Lemma pages_scanned_within_budget_witness :
  let engine := {| Client.maxDepth := 2%Q; Client.maxPages := 2.5%Q |} in
  exists w' r,
    Client.scanWebsite Demo.clientPlatform engine 10 0%nat "https://bank.example/"
      = Some (w', Returned r) /\
    res_pagesScanned r = 3%Z /\
    (0 <= res_pagesScanned r <= Z.max 0 (Qceiling (Client.maxPages engine)))%Z.
Proof.
  intros engine. eexists _, _. split; [vm_compute; reflexivity|]. split; [reflexivity|].
  apply (proj2 (proj1 (proj2 pages_scanned_within_budget) nat Demo.clientPlatform engine
                  0%nat "https://bank.example/") 10%nat 3%nat).
  vm_compute. reflexivity.
Defined.

(** C1, as stated, fails for a budget that is not a whole number: with
    [maxPagesPerSite = 1.5] the scraper scans 2 pages of the example site,
    and with [maxPages = 2.5] the client engine scans 3. *)
Lemma pages_budget_counterexample :
  let options := {| Headless.maxDepth := 0.5%Q; Headless.maxPagesPerSite := 1.5%Q |} in
  let engine := Client.constructor
                  {| Client.opt_maxDepth := None; Client.opt_maxPages := Some 2.5%Q |} in
  (exists w' r,
     Headless.crawlSite Demo.helpers Demo.browser options 5 0%nat "https://bank.example/"
       = Some (w', Returned r) /\
     res_pagesScanned r = 2%Z /\
     ~ (inject_Z (res_pagesScanned r) <= Headless.maxPagesPerSite options)%Q) /\
  (exists w' r,
     Client.scanWebsite Demo.clientPlatform engine 10 0%nat "https://bank.example/"
       = Some (w', Returned r) /\
     res_pagesScanned r = 3%Z /\
     ~ (inject_Z (res_pagesScanned r) <= Client.maxPages engine)%Q).
Proof.
  split; eexists _, _; (split; [vm_compute; reflexivity|]); (split; [reflexivity|]);
    vm_compute; intros H; by apply H.
Qed.

(** ** Iterations compose *)

Lemma client_stateAfter_add {World} (platform : Client.Platform World) engine baseDomain n k s :
  Client.stateAfter platform engine baseDomain (n + k) s
  = Client.stateAfter platform engine baseDomain k
      (Client.stateAfter platform engine baseDomain n s).
Proof.
  revert s. induction n as [|n IH]; intros s; simpl; [done|].
  destruct (Client.step platform engine baseDomain s) as [s'|] eqn:Hstep; [apply IH|].
  destruct k; simpl; [done|]. by rewrite Hstep.
Qed.

Lemma headless_stateAfter_add {World} helpers (browser : Headless.Browser World) options n k s :
  Headless.stateAfter helpers browser options (n + k) s
  = Headless.stateAfter helpers browser options k
      (Headless.stateAfter helpers browser options n s).
Proof.
  revert s. induction n as [|n IH]; intros s; simpl; [done|].
  destruct (Headless.step helpers browser options s) as [|s'|] eqn:Hstep;
    [|apply IH|]; destruct k; simpl; try done; by rewrite Hstep.
Qed.

(** C2 (as amended). In the client engine no entry deeper than [maxDepth]
    is processed: a dequeued entry beyond the limit is dropped and neither
    the page count, the visited set nor the world changes. The headless
    scraper has no such test at dequeue: an entry that was not visited is
    processed whatever its depth. It enqueues the links of a page only
    when the depth of the page is below the limit, so what it processes is
    the seed, of depth 0, or has a depth below the limit plus one: within
    the limit when the limit is a whole number that is not negative. *)
Theorem processed_within_depth :
  (forall World (platform : Client.Platform World) engine baseDomain w startUrl n,
     Forall (fun e => (inject_Z (entry_depth e) <= Client.maxDepth engine)%Q)
            (Client.processed
               (Client.stateAfter platform engine baseDomain n
                  (Client.initialState w startUrl)))) /\
  (forall World (platform : Client.Platform World) engine baseDomain s e rest,
     Client.toVisit s = e :: rest ->
     (Client.maxDepth engine < inject_Z (entry_depth e))%Q ->
     (inject_Z (Client.pagesScanned s) < Client.maxPages engine)%Q ->
     exists s', Client.step platform engine baseDomain s = Some s' /\
                Client.toVisit s' = rest /\
                Client.pagesScanned s' = Client.pagesScanned s /\
                Client.processed s' = Client.processed s /\
                Client.visited s' = Client.visited s /\
                Client.world s' = Client.world s) /\
  (forall World helpers (browser : Headless.Browser World) options w startUrl n,
     Forall (fun e => entry_depth e = 0%Z \/
                      ((0 < entry_depth e)%Z /\
                       (inject_Z (entry_depth e) < Headless.maxDepth options + 1)%Q))
            (Headless.processed
               (Headless.stateAfter helpers browser options n
                  (Headless.initialState w startUrl)))) /\
  (forall World helpers (browser : Headless.Browser World) options w startUrl n whole,
     (0 <= whole)%Z -> (Headless.maxDepth options == inject_Z whole)%Q ->
     Forall (fun e => (0 <= entry_depth e)%Z /\
                      (inject_Z (entry_depth e) <= Headless.maxDepth options)%Q)
            (Headless.processed
               (Headless.stateAfter helpers browser options n
                  (Headless.initialState w startUrl)))) /\
  (forall World helpers (browser : Headless.Browser World) options s s' e rest,
     Headless.toVisit s = e :: rest ->
     entry_url e ∉ Headless.visited s ->
     Headless.step helpers browser options s = Headless.Next s' ->
     Headless.processed s' = Headless.processed s ++ [e]).
Proof.
  split_and!.
  - intros.
    by destruct (client_invariant_stateAfter platform engine baseDomain n _
                   (client_invariant_initial engine w startUrl)).
  - intros World platform engine baseDomain s e rest Hq Hd Hp.
    unfold Client.step, Client.loopCondition. rewrite Hq. simpl.
    apply belowLimit_lt in Hp. apply aboveLimit_gt in Hd. rewrite Hp, Hd, orb_true_r. simpl.
    eexists. by split.
  - intros.
    by destruct (headless_invariant_stateAfter helpers browser options n _
                   (headless_invariant_initial options w startUrl)).
  - intros World helpers browser options w startUrl n whole Hwhole Heq.
    destruct (headless_invariant_stateAfter helpers browser options n _
                (headless_invariant_initial options w startUrl)) as [_ _ _ Hd _ _].
    eapply Forall_impl; [exact Hd|]. intros e [He|[Hpos Hlt]].
    + rewrite He, Heq. split; [done|]. rewrite <- Zle_Qle. done.
    + split; [lia|]. rewrite Heq in *. rewrite <- Zle_Qle.
      change 1%Q with (inject_Z 1) in Hlt. rewrite <- inject_Z_plus, <- Zlt_Qlt in Hlt. lia.
  - intros World helpers browser options s s' e rest Hq Hnv Hstep.
    destruct (headless_step_transition _ _ _ _ _ Hstep)
      as [e0 rest0 Hq0 Hin _ _ _ _ _|e0 rest0 Hq0 _ _ _ _ _ Hpr|e0 rest0 Hq0 _ _ _ _ _ Hpr];
      rewrite Hq in Hq0; injection Hq0 as <- <-; done.
Qed.

(** With a depth limit of one half the client engine enqueues the links of
    the seed at depth 1 and drops them when they are dequeued: after the
    seed of the example site the first of them is dropped and not counted. *)
Lemma processed_within_depth_witness :
  let engine := {| Client.maxDepth := 0.5%Q; Client.maxPages := 30%Q |} in
  let s := Client.stateAfter Demo.clientPlatform engine "https://bank.example" 1
             (Client.initialState 0%nat "https://bank.example/") in
  Client.toVisit s
  = [ {| entry_url := "https://bank.example/docs/overview"; entry_depth := 1 |};
      {| entry_url := "https://bank.example/about"; entry_depth := 1 |} ] /\
  exists s', Client.step Demo.clientPlatform engine "https://bank.example" s = Some s' /\
             Client.toVisit s'
             = [ {| entry_url := "https://bank.example/about"; entry_depth := 1 |} ] /\
             Client.pagesScanned s' = Client.pagesScanned s /\
             Client.processed s' = Client.processed s /\
             Client.visited s' = Client.visited s /\
             Client.world s' = Client.world s.
Proof.
  intros engine s.
  assert (Hq : Client.toVisit s
               = [ {| entry_url := "https://bank.example/docs/overview"; entry_depth := 1 |};
                   {| entry_url := "https://bank.example/about"; entry_depth := 1 |} ])
    by (vm_compute; reflexivity).
  split; [exact Hq|].
  apply (proj1 (proj2 processed_within_depth) nat Demo.clientPlatform engine
           "https://bank.example" s
           {| entry_url := "https://bank.example/docs/overview"; entry_depth := 1 |}
           [ {| entry_url := "https://bank.example/about"; entry_depth := 1 |} ]).
  - exact Hq.
  - reflexivity.
  - vm_compute. reflexivity.
Defined.

(** C2, as stated, fails for the headless scraper: with [maxDepth = 0.5] it
    enqueues the links of the seed, since 0 is below the limit, and then
    loads and counts a page of depth 1, which is beyond the limit. *)
Lemma depth_limit_counterexample :
  let options := {| Headless.maxDepth := 0.5%Q; Headless.maxPagesPerSite := 1.5%Q |} in
  let s := Headless.stateAfter Demo.helpers Demo.browser options 2
             (Headless.initialState 0%nat "https://bank.example/") in
  Headless.processed s
  = [ {| entry_url := "https://bank.example/"; entry_depth := 0 |};
      {| entry_url := "https://bank.example/about"; entry_depth := 1 |} ] /\
  Headless.pagesScanned s = 2%Z /\
  ~ Forall (fun e => (inject_Z (entry_depth e) <= Headless.maxDepth options)%Q)
           (Headless.processed s).
Proof.
  intros options s.
  assert (Hp : Headless.processed s
               = [ {| entry_url := "https://bank.example/"; entry_depth := 0 |};
                   {| entry_url := "https://bank.example/about"; entry_depth := 1 |} ])
    by (vm_compute; reflexivity).
  split_and!; [exact Hp|vm_compute; reflexivity|].
  rewrite Hp. intros H. apply Forall_cons in H as [_ H].
  apply Forall_cons in H as [H _]. vm_compute in H. by apply H.
Qed.

(** C3. Within one site crawl the visited set only grows, every processed
    URL is in it, and no URL is processed twice, whatever the frontier
    holds: for the client engine and for the headless scraper. *)
Theorem visited_monotone_processed_once :
  (forall World (platform : Client.Platform World) engine baseDomain w startUrl n k,
     let after m := Client.stateAfter platform engine baseDomain m
                      (Client.initialState w startUrl) in
     Client.visited (after n) ⊆ Client.visited (after (n + k)%nat) /\
     Forall (fun e => entry_url e ∈ Client.visited (after n)) (Client.processed (after n)) /\
     NoDup (map entry_url (Client.processed (after n)))) /\
  (forall World helpers (browser : Headless.Browser World) options w startUrl n k,
     let after m := Headless.stateAfter helpers browser options m
                      (Headless.initialState w startUrl) in
     Headless.visited (after n) ⊆ Headless.visited (after (n + k)%nat) /\
     Forall (fun e => entry_url e ∈ Headless.visited (after n)) (Headless.processed (after n)) /\
     NoDup (map entry_url (Headless.processed (after n)))).
Proof.
  split.
  - intros. subst after. cbv beta. rewrite client_stateAfter_add.
    split; [apply client_visited_stateAfter|].
    by destruct (client_invariant_stateAfter platform engine baseDomain n _
                   (client_invariant_initial engine w startUrl)).
  - intros. subst after. cbv beta. rewrite headless_stateAfter_add.
    split; [apply headless_visited_stateAfter|].
    by destruct (headless_invariant_stateAfter helpers browser options n _
                   (headless_invariant_initial options w startUrl)).
Qed.

(** ** Maps in insertion order *)

Section JsMapFacts.
Context {V : Type}.
Implicit Types (m : list (string * V)) (k : string) (v : V).

Lemma get_set_eq k v m : JsMap.get k (JsMap.set k v m) = Some v.
Proof.
  induction m as [|[k' v'] m IH]; simpl; [by rewrite String.eqb_refl|].
  destruct (String.eqb_spec k' k) as [->|Hne]; simpl.
  - by rewrite String.eqb_refl.
  - by destruct (String.eqb_spec k' k).
Qed.

Lemma get_set_ne k k' v m : k <> k' -> JsMap.get k' (JsMap.set k v m) = JsMap.get k' m.
Proof.
  intros Hne. induction m as [|[k0 v0] m IH]; simpl.
  - by destruct (String.eqb_spec k k').
  - destruct (String.eqb_spec k0 k) as [->|Hne0]; simpl.
    + by destruct (String.eqb_spec k k').
    + by rewrite IH.
Qed.

Lemma get_None k m : JsMap.get k m = None <-> k ∉ map fst m.
Proof.
  induction m as [|[k' v'] m IH]; simpl.
  - split; [intros _; apply not_elem_of_nil|done].
  - rewrite not_elem_of_cons. destruct (String.eqb_spec k' k) as [->|Hne].
    + split; [done|]. by intros [[] _].
    + rewrite IH. naive_solver.
Qed.

Lemma set_absent k v m : JsMap.get k m = None -> JsMap.set k v m = m ++ [(k, v)].
Proof.
  induction m as [|[k' v'] m IH]; simpl; [done|].
  destruct (String.eqb_spec k' k); [done|]. intros ?. by rewrite IH.
Qed.

Lemma keys_set_present k v m :
  k ∈ map fst m -> map fst (JsMap.set k v m) = map fst m.
Proof.
  induction m as [|[k' v'] m IH]; simpl; [by intros ?%elem_of_nil|].
  destruct (String.eqb_spec k' k) as [->|Hne]; simpl; [done|].
  intros [?|?]%elem_of_cons; [congruence|]. by rewrite IH.
Qed.

Lemma keys_set_NoDup k v m : NoDup (map fst m) -> NoDup (map fst (JsMap.set k v m)).
Proof.
  intros Hm. destruct (JsMap.get k m) eqn:Hg.
  - rewrite keys_set_present; [done|].
    destruct (decide (k ∈ map fst m)) as [|Hn]; [done|].
    apply get_None in Hn. congruence.
  - rewrite set_absent by done. rewrite map_app. simpl.
    apply NoDup_app. split; [done|]. split; [|apply NoDup_singleton].
    intros x Hx [->|[]%elem_of_nil]%elem_of_cons. by apply get_None in Hg.
Qed.

Lemma elem_of_set k v k' v' m :
  (k', v') ∈ JsMap.set k v m -> (k' = k /\ v' = v) \/ (k', v') ∈ m.
Proof.
  induction m as [|[k0 v0] m IH]; simpl.
  - intros [[= -> ->]|[]%elem_of_nil]%elem_of_cons. by left.
  - destruct (String.eqb_spec k0 k) as [->|Hne].
    + intros [[= -> ->]|?]%elem_of_cons; [by left|right; by right].
    + intros [[= -> ->]|?]%elem_of_cons; [right; by left|].
      destruct IH as [?|?]; [done|by left|right; by right].
Qed.


(** Two maps with the same keys in the same order and the same values are
    the same list. *)
Lemma map_ext m1 m2 :
  map fst m1 = map fst m2 -> NoDup (map fst m1) ->
  (forall k, JsMap.get k m1 = JsMap.get k m2) -> m1 = m2.
Proof.
  revert m2. induction m1 as [|[k v] m1 IH]; intros [|[k2 v2] m2]; simpl; try done.
  intros [= <- Hk] [Hnk Hnd]%NoDup_cons Hget. f_equal.
  - specialize (Hget k). rewrite String.eqb_refl in Hget. congruence.
  - apply IH; [done..|]. intros k'. specialize (Hget k').
    destruct (String.eqb_spec k k') as [Heq|Hne]; [subst k'|done].
    pose proof Hnk as Hnk2. rewrite Hk in Hnk2.
    apply get_None in Hnk, Hnk2. by rewrite Hnk, Hnk2.
Qed.

End JsMapFacts.

(** ** Deduplication in the first client engine *)

Lemma client_dedup_fold apis seen unique :
  snd (fold_left
         (fun '(seen, unique) api =>
            let key := Client.dedupKey api in
            if bool_decide (key ∈ seen) then (seen, unique)
            else ({[key]} ∪ seen, unique ++ [api]))
         apis (seen, unique))
  = unique ++ Client.firstPerKey seen apis.
Proof.
  revert seen unique. induction apis as [|a apis IH]; intros seen unique; simpl.
  - by rewrite app_nil_r.
  - destruct (bool_decide _); rewrite IH; [done|]. by rewrite <- app_assoc.
Qed.

Lemma client_dedup_firstPerKey apis :
  Client.deduplicateApis apis = Client.firstPerKey ∅ apis.
Proof. unfold Client.deduplicateApis. by rewrite client_dedup_fold. Qed.

Lemma firstPerKey_app seen l1 l2 :
  Client.firstPerKey seen (l1 ++ l2)
  = Client.firstPerKey seen l1
    ++ Client.firstPerKey (list_to_set (map Client.dedupKey l1) ∪ seen) l2.
Proof.
  revert seen. induction l1 as [|a l1 IH]; intros seen; simpl.
  - f_equal. set_solver.
  - destruct (bool_decide (Client.dedupKey a ∈ seen)) eqn:Hin.
    + rewrite IH. f_equal. f_equal. apply bool_decide_eq_true in Hin. set_solver.
    + simpl. rewrite IH. f_equal. f_equal. f_equal. set_solver.
Qed.

Lemma firstPerKey_seen seen l :
  (forall a, a ∈ l -> Client.dedupKey a ∈ seen) -> Client.firstPerKey seen l = [].
Proof.
  induction l as [|a l IH]; intros Hl; simpl; [done|].
  rewrite bool_decide_eq_true_2 by (apply Hl; by left).
  apply IH. intros b Hb. apply Hl. by right.
Qed.

Lemma firstPerKey_idem seen l :
  Client.firstPerKey seen (Client.firstPerKey seen l) = Client.firstPerKey seen l.
Proof.
  revert seen. induction l as [|a l IH]; intros seen; simpl; [done|].
  destruct (bool_decide (Client.dedupKey a ∈ seen)) eqn:Hin; [apply IH|].
  simpl. rewrite Hin. by rewrite IH.
Qed.


(** ** Deduplication in the second client engine *)

Lemma elem_of_snoc {A} (x y : A) l : x ∈ l ++ [y] <-> x ∈ l \/ x = y.
Proof. rewrite elem_of_app, list_elem_of_singleton. done. Qed.

Lemma Qgtb_false a b : Qgtb a b = false <-> (a <= b)%Q.
Proof. unfold Qgtb. rewrite negb_false_iff. apply Qle_bool_iff. Qed.

Lemma portal_step_dominated m l r :
  dominated m l -> dominated (Portal.dedupStep m r) (l ++ [r]).
Proof.
  intros Hm r' Hr'. unfold Portal.dedupStep.
  destruct (JsMap.get (Portal.dedupKey r) m) as [existing|] eqn:Hg.
  - destruct (Qgtb (confidence_score r) (confidence_score existing)) eqn:Hgt.
    + apply Qgtb_lt in Hgt.
      destruct (decide (Portal.dedupKey r' = Portal.dedupKey r)) as [Heq|Hne].
      * rewrite Heq, get_set_eq. eexists; split; [done|].
        apply elem_of_snoc in Hr' as [Hr'| ->]; [|apply Qle_refl].
        destruct (Hm r' Hr') as (v & Hv & Hle). rewrite Heq, Hg in Hv.
        injection Hv as <-. eapply Qle_trans; [exact Hle|by apply Qlt_le_weak].
      * rewrite get_set_ne by done.
        apply elem_of_snoc in Hr' as [Hr'| ->]; [by apply Hm|done].
    + apply Qgtb_false in Hgt.
      apply elem_of_snoc in Hr' as [Hr'| ->]; [by apply Hm|].
      by exists existing.
  - destruct (decide (Portal.dedupKey r' = Portal.dedupKey r)) as [Heq|Hne].
    + rewrite Heq, get_set_eq. eexists; split; [done|].
      apply elem_of_snoc in Hr' as [Hr'| ->]; [|apply Qle_refl].
      destruct (Hm r' Hr') as (v & Hv & Hle). rewrite Heq, Hg in Hv. done.
    + rewrite get_set_ne by done.
      apply elem_of_snoc in Hr' as [Hr'| ->]; [by apply Hm|done].
Qed.

Lemma portal_step_shape m r :
  NoDup (map fst m) -> keyedBy Portal.dedupKey m ->
  NoDup (map fst (Portal.dedupStep m r)) /\ keyedBy Portal.dedupKey (Portal.dedupStep m r) /\
  (forall k v, (k, v) ∈ Portal.dedupStep m r -> v = r \/ (k, v) ∈ m).
Proof.
  intros Hn Hk. unfold Portal.dedupStep.
  assert (Hset : NoDup (map fst (JsMap.set (Portal.dedupKey r) r m)) /\
                 keyedBy Portal.dedupKey (JsMap.set (Portal.dedupKey r) r m) /\
                 (forall k v, (k, v) ∈ JsMap.set (Portal.dedupKey r) r m ->
                              v = r \/ (k, v) ∈ m)).
  { split_and!; [by apply keys_set_NoDup| |].
    - intros k v [[-> ->]|?]%elem_of_set; [done|by apply Hk].
    - intros k v [[-> ->]|?]%elem_of_set; [by left|by right]. }
  destruct (JsMap.get _ m) as [existing|]; [|done].
  destruct (Qgtb _ _); [done|]. split_and!; [done..|]. intros; by right.
Qed.

Lemma portal_fold_invariant apis m l :
  NoDup (map fst m) -> keyedBy Portal.dedupKey m -> dominated m l ->
  (forall k v, (k, v) ∈ m -> v ∈ l) ->
  let m' := fold_left Portal.dedupStep apis m in
  NoDup (map fst m') /\ keyedBy Portal.dedupKey m' /\ dominated m' (l ++ apis) /\
  (forall k v, (k, v) ∈ m' -> v ∈ l ++ apis).
Proof.
  revert m l. induction apis as [|a apis IH]; intros m l Hn Hk Hd Hin; simpl.
  - by rewrite app_nil_r.
  - destruct (portal_step_shape m a Hn Hk) as (Hn' & Hk' & Hin').
    destruct (IH (Portal.dedupStep m a) (l ++ [a])) as (? & ? & ? & ?); [done..| | |].
    + by apply portal_step_dominated.
    + intros k v [->|?]%Hin'; apply elem_of_app; [right; by left|left; eauto].
    + by rewrite <- !app_assoc in *.
Qed.

Lemma portal_fold_absorb apis m :
  dominated m apis -> fold_left Portal.dedupStep apis m = m.
Proof.
  induction apis as [|a apis IH]; intros Hd; simpl; [done|].
  assert (Portal.dedupStep m a = m) as ->.
  { destruct (Hd a) as (v & Hv & Hle); [by left|].
    unfold Portal.dedupStep. rewrite Hv. by apply Qgtb_false in Hle as ->. }
  apply IH. intros r Hr. apply Hd. by right.
Qed.

Lemma portal_fold_rebuild m2 m1 :
  NoDup (map fst (m1 ++ m2)) -> keyedBy Portal.dedupKey m2 ->
  fold_left Portal.dedupStep (JsMap.values m2) m1 = m1 ++ m2.
Proof.
  revert m1. induction m2 as [|[k v] m2 IH]; intros m1 Hn Hk; simpl.
  - by rewrite app_nil_r.
  - assert (k = Portal.dedupKey v) as -> by (apply Hk; by left).
    assert (JsMap.get (Portal.dedupKey v) m1 = None) as Hg.
    { apply get_None. rewrite map_app in Hn. apply NoDup_app in Hn as (_ & Hn & _).
      intros Hin. apply (Hn _ Hin). by left. }
    unfold Portal.dedupStep at 2. rewrite Hg, set_absent by done.
    unfold JsMap.values in IH. rewrite IH.
    + by rewrite <- app_assoc.
    + by rewrite <- app_assoc.
    + intros k' v' ?. apply Hk. by right.
Qed.


(** ** The merge of the scraper *)

Lemma merge_get_congr X (m m' : list (string * ApiRecord)) k :
  JsMap.get k m = JsMap.get k m' ->
  JsMap.get k (fold_left Headless.setPage X m) = JsMap.get k (fold_left Headless.setPage X m').
Proof.
  revert m m'. induction X as [|a X IH]; intros m m' Hg; simpl; [done|].
  apply IH. destruct (decide (source_page a = k)) as [<-|Hne].
  - by rewrite !get_set_eq.
  - by rewrite !get_set_ne.
Qed.

Lemma merge_get_absent X (m : list (string * ApiRecord)) k :
  k ∉ map source_page X -> JsMap.get k (fold_left Headless.setPage X m) = JsMap.get k m.
Proof.
  revert m. induction X as [|a X IH]; intros m Hk; simpl; [done|].
  simpl in Hk. apply not_elem_of_cons in Hk as [Hne Hk].
  rewrite IH by done. by rewrite get_set_ne.
Qed.

Lemma merge_get_present X (m m' : list (string * ApiRecord)) k :
  k ∈ map source_page X ->
  JsMap.get k (fold_left Headless.setPage X m) = JsMap.get k (fold_left Headless.setPage X m').
Proof.
  revert m m'. induction X as [|a X IH]; intros m m'; simpl; [by intros ?%elem_of_nil|].
  destruct (decide (source_page a = k)) as [<-|Hne].
  - intros _. apply merge_get_congr. by rewrite !get_set_eq.
  - intros [?|?]%elem_of_cons; [done|]. by apply IH.
Qed.

Lemma merge_shape X (m : list (string * ApiRecord)) :
  NoDup (map fst m) -> keyedBy source_page m ->
  let m' := fold_left Headless.setPage X m in
  NoDup (map fst m') /\ keyedBy source_page m' /\
  (forall k, k ∈ map fst m -> k ∈ map fst m') /\
  (forall a, a ∈ X -> source_page a ∈ map fst m').
Proof.
  revert m. induction X as [|a X IH]; intros m Hn Hk; simpl.
  - split_and!; [done..|]. by intros a ?%elem_of_nil.
  - destruct (IH (JsMap.set (source_page a) a m)) as (Hn' & Hk' & Hmono & Hall).
    + by apply keys_set_NoDup.
    + intros k v [[-> ->]|?]%elem_of_set; [done|by apply Hk].
    + assert (Hin : source_page a ∈ map fst (JsMap.set (source_page a) a m)).
      { destruct (JsMap.get (source_page a) m) eqn:Hg.
        - rewrite keys_set_present; destruct (decide (source_page a ∈ map fst m)) as [|Hnin];
            try done; apply get_None in Hnin; congruence.
        - rewrite set_absent by done. rewrite map_app. apply elem_of_app. right. by left. }
      split_and!; [done..| |].
      * intros k Hkm. apply Hmono.
        destruct (JsMap.get (source_page a) m) eqn:Hg.
        -- rewrite keys_set_present; [done|].
           destruct (decide (source_page a ∈ map fst m)) as [|Hnin]; [done|].
           apply get_None in Hnin. congruence.
        -- rewrite set_absent by done. rewrite map_app. apply elem_of_app. by left.
      * intros b [->|?]%elem_of_cons; [by apply Hmono|by apply Hall].
Qed.

Lemma merge_keys_absorb X (m : list (string * ApiRecord)) :
  (forall a, a ∈ X -> source_page a ∈ map fst m) ->
  map fst (fold_left Headless.setPage X m) = map fst m.
Proof.
  revert m. induction X as [|a X IH]; intros m Hall; simpl; [done|].
  rewrite IH.
  - apply keys_set_present. apply Hall. by left.
  - intros b Hb. rewrite keys_set_present by (apply Hall; by left). apply Hall. by right.
Qed.

Lemma merge_rebuild (m2 m1 : list (string * ApiRecord)) :
  NoDup (map fst (m1 ++ m2)) -> keyedBy source_page m2 ->
  fold_left Headless.setPage (JsMap.values m2) m1 = m1 ++ m2.
Proof.
  revert m1. induction m2 as [|[k v] m2 IH]; intros m1 Hn Hk; simpl.
  - by rewrite app_nil_r.
  - assert (k = source_page v) as -> by (apply Hk; by left).
    assert (JsMap.get (source_page v) m1 = None) as Hg.
    { apply get_None. rewrite map_app in Hn. apply NoDup_app in Hn as (_ & Hn & _).
      intros Hin. apply (Hn _ Hin). by left. }
    rewrite set_absent by done.
    unfold JsMap.values in IH. rewrite IH.
    + by rewrite <- app_assoc.
    + by rewrite <- app_assoc.
    + intros k' v' ?. apply Hk. by right.
Qed.

Lemma merge_self X : Headless.mergeApis X X = Headless.mergeApis [] X.
Proof.
  unfold Headless.mergeApis. simpl. f_equal.
  destruct (merge_shape X []) as (Hn & Hk & _ & Hall);
    [apply NoDup_nil_2|by intros k v ?%elem_of_nil|].
  apply map_ext.
  - by apply merge_keys_absorb.
  - rewrite merge_keys_absorb; done.
  - intros k. destruct (decide (k ∈ map source_page X)).
    + by apply merge_get_present.
    + by rewrite merge_get_absent.
Qed.

Lemma merge_idem X : Headless.mergeApis [] (Headless.mergeApis [] X) = Headless.mergeApis [] X.
Proof.
  unfold Headless.mergeApis. simpl. f_equal.
  destruct (merge_shape X []) as (Hn & Hk & _ & _);
    [apply NoDup_nil_2|by intros k v ?%elem_of_nil|].
  by rewrite (merge_rebuild _ []).
Qed.

(** ** What the deduplicators keep *)

Lemma portal_dedup_invariant apis :
  let m := fold_left Portal.dedupStep apis [] in
  NoDup (map fst m) /\ keyedBy Portal.dedupKey m /\ dominated m apis /\
  (forall k v, (k, v) ∈ m -> v ∈ apis).
Proof.
  apply (portal_fold_invariant apis [] []).
  - apply NoDup_nil_2.
  - by intros k v ?%elem_of_nil.
  - by intros r ?%elem_of_nil.
  - by intros k v ?%elem_of_nil.
Qed.






(** C6. Merging a dataset with itself and deduplicating gives what
    deduplicating the dataset gives: for the first client engine (the
    records of the sites are appended), for the second one (they are
    appended and deduplicated) and for the scraper (the stored and the new
    records go into one map keyed by [source_page], whose values are then
    sorted by confidence). *)
Theorem dedup_merge_self :
  (forall X, Client.deduplicateApis (X ++ X) = Client.deduplicateApis X) /\
  (forall X, Portal.deduplicateApis (Portal.mergeSites [X; X]) = Portal.deduplicateApis X) /\
  (forall X, Headless.mergeApis [] (Headless.mergeApis X X) = Headless.mergeApis [] X) /\
  (forall X, Headless.sortByConfidence (Headless.mergeApis X X)
             = Headless.sortByConfidence (Headless.mergeApis [] X)).
Proof.
  split_and!.
  - intros X. rewrite !client_dedup_firstPerKey, firstPerKey_app.
    rewrite (firstPerKey_seen (_ ∪ ∅)); [by rewrite app_nil_r|].
    intros a Ha. apply elem_of_union_l, elem_of_list_to_set, list_elem_of_fmap. eauto.
  - intros X. unfold Portal.mergeSites. simpl. rewrite app_nil_r.
    destruct (portal_dedup_invariant X) as (Hn & Hk & Hd & _).
    assert (Portal.deduplicateApis (X ++ X) = Portal.deduplicateApis X) as ->.
    { unfold Portal.deduplicateApis. rewrite fold_left_app.
      by rewrite portal_fold_absorb. }
    unfold Portal.deduplicateApis at 1 2.
    by rewrite (portal_fold_rebuild _ []).
  - intros X. rewrite merge_self. apply merge_idem.
  - intros X. by rewrite merge_self.
Qed.

(** ** The relevance score of a page *)

Lemma analyzePage_fields {World} (platform : Client.Platform World) w url baseDomain
    w' pageResult html doc :
  Client.fetchPage platform w url = (w', Returned (html, doc)) ->
  Client.analyzePage platform w url baseDomain = (w', Returned pageResult) ->
  Client.keywordsFound pageResult = Client.findKeywords (toLowerCase (doc_bodyText doc)) /\
  Client.relevanceScore pageResult
  = Client.calculateRelevance (Client.findKeywords (toLowerCase (doc_bodyText doc))) url /\
  Client.isApiRelated pageResult = Qgtb (Client.relevanceScore pageResult) 0.2.
Proof.
  unfold Client.analyzePage. intros ->.
  destruct (Client.extractLinks _ _ _ _) as [links|m]; [|done].
  by intros [= <-].
Qed.

Lemma score_bounds matched url : (0 <= Spec.score matched url <= 1)%Q.
Proof.
  unfold Spec.score, Spec.clamp01. split.
  - apply Q.le_max_l.
  - apply Q.max_lub; [discriminate|apply Q.le_min_r].
Qed.

(** C4. The score that the client engine gives a page is the sum of the
    weights of the categories with at least one match (general 0.30, ais
    0.25, pis 0.25, caf 0.20, technical 0.20), plus 0.20 when the URL
    matches one of the API path patterns in any case, clamped to [0, 1]:
    for every list of keywords found, where a category has a match when one
    of its tags is in the list, and for every analyzed page, where it has
    one when one of its keywords occurs in the page text. The page is API
    related exactly when the score is above 0.2. *)
Theorem relevance_score_formula :
  forall World (platform : Client.Platform World) w url baseDomain w' pageResult html doc,
    Client.fetchPage platform w url = (w', Returned (html, doc)) ->
    Client.analyzePage platform w url baseDomain = (w', Returned pageResult) ->
    (forall keywordsFound url',
       (Client.calculateRelevance keywordsFound url'
          == Spec.score (Spec.tagged keywordsFound) url')%Q) /\
    Client.relevanceScore pageResult
      = Client.calculateRelevance (Client.keywordsFound pageResult) url /\
    (Client.relevanceScore pageResult
       == Spec.relevance (toLowerCase (doc_bodyText doc)) url)%Q /\
    (0 <= Client.relevanceScore pageResult <= 1)%Q /\
    (Client.isApiRelated pageResult = true <-> (0.2 < Client.relevanceScore pageResult)%Q).
Proof.
  intros World platform w url baseDomain w' pageResult html doc Hfetch Hpage.
  destruct (analyzePage_fields _ _ _ _ _ _ _ _ Hfetch Hpage) as (Hkw & Hscore & Hrel).
  split; [|split; [|split; [|split]]].
  - apply calculateRelevance_tags.
  - by rewrite Hkw.
  - rewrite Hscore. apply calculateRelevance_spec.
  - rewrite Hscore, calculateRelevance_spec. apply score_bounds.
  - rewrite Hrel. apply Qgtb_lt.
Qed.

(** The home page of the example site scores 0.8 and is API related. *)
Lemma relevance_score_formula_witness :
  let pageResult :=
    {| Client.pr_url := "https://bank.example/";
       Client.pr_title := "Example Bank";
       Client.isApiRelated := true;
       Client.relevanceScore := (0.0 + 0.3 + 0.25 + 0.25)%Q;
       Client.keywordsFound :=
         ["general:psd2"; "general:developer portal"; "ais:account information";
          "pis:payment initiation"];
       Client.links := ["https://bank.example/docs/overview"; "https://bank.example/about"];
       Client.apiDocumentationUrls := [];
       Client.swaggerUrls := [];
       Client.pr_textContent :=
         "welcome to our psd2 developer portal: account information and payment initiation." |} in
  (Client.relevanceScore pageResult == 0.8)%Q /\
  (Client.relevanceScore pageResult
     == Spec.relevance (toLowerCase (doc_bodyText Demo.homeDoc)) "https://bank.example/")%Q /\
  (Client.isApiRelated pageResult = true <-> (0.2 < Client.relevanceScore pageResult)%Q).
Proof.
  intros pageResult. split; [reflexivity|].
  destruct (relevance_score_formula nat Demo.clientPlatform 0%nat "https://bank.example/"
              "https://bank.example" 1%nat pageResult "" Demo.homeDoc)
    as (_ & _ & Hscore & _ & Hrelated).
  - reflexivity.
  - vm_compute. reflexivity.
  - by split.
Defined.

(** ** The keyword loops of the scraper *)

Lemma keywordStep_found lowerContent category acc acc' keyword :
  snd acc = snd acc' ->
  snd (Headless.keywordStep lowerContent category acc keyword)
  = snd (Headless.keywordStep lowerContent category acc' keyword).
Proof.
  destruct acc as [km found], acc' as [km' found']. simpl. intros ->.
  unfold Headless.keywordStep. by destruct (0 <? _)%Z.
Qed.

Lemma keywordLoop_found KEYWORDS lowerContent initial :
  snd (Headless.keywordLoop KEYWORDS lowerContent initial)
  = Headless.matchedKeywords KEYWORDS lowerContent.
Proof.
  unfold Headless.matchedKeywords, Headless.keywordLoop.
  generalize (@nil string). intros found.
  assert (Hgen : forall acc acc' : list (string * Headless.JsNum) * list string,
             snd acc = snd acc' ->
             snd (fold_left (fun acc '(category, keywords) =>
                               fold_left (Headless.keywordStep lowerContent category) keywords acc)
                            KEYWORDS acc)
             = snd (fold_left (fun acc '(category, keywords) =>
                                 fold_left (Headless.keywordStep lowerContent category) keywords acc)
                              KEYWORDS acc')).
  { induction KEYWORDS as [|[category keywords] KEYWORDS IH]; intros acc acc' Hacc; simpl; [done|].
    apply IH. revert acc acc' Hacc.
    induction keywords as [|keyword keywords IHk]; intros acc acc' Hacc; simpl; [done|].
    apply IHk. by apply keywordStep_found. }
  by apply Hgen.
Qed.

Lemma keywordStep_NoDup lowerContent category acc keyword :
  NoDup (snd acc) -> NoDup (snd (Headless.keywordStep lowerContent category acc keyword)).
Proof.
  destruct acc as [km found]. simpl. unfold Headless.keywordStep.
  destruct (0 <? _)%Z; [|done]. simpl.
  destruct (JsSet.has keyword found) eqn:Hhas; [done|]. intros Hn.
  apply NoDup_app. split; [done|]. split; [|apply NoDup_singleton].
  intros x Hx ->%list_elem_of_singleton.
  assert (JsSet.has keyword found = true); [|congruence].
  unfold JsSet.has. apply existsb_exists. exists keyword.
  split; [by apply list_elem_of_In|apply String.eqb_refl].
Qed.

Lemma matchedKeywords_NoDup KEYWORDS lowerContent :
  NoDup (Headless.matchedKeywords KEYWORDS lowerContent).
Proof.
  unfold Headless.matchedKeywords, Headless.keywordLoop.
  assert (Hgen : forall acc : list (string * Headless.JsNum) * list string,
             NoDup (snd acc) ->
             NoDup (snd (fold_left (fun acc '(category, keywords) =>
                               fold_left (Headless.keywordStep lowerContent category) keywords acc)
                            KEYWORDS acc))).
  { induction KEYWORDS as [|[category keywords] KEYWORDS IH]; intros acc Hacc; simpl; [done|].
    apply IH. revert acc Hacc.
    induction keywords as [|keyword keywords IHk]; intros acc Hacc; simpl; [done|].
    apply IHk. by apply keywordStep_NoDup. }
  apply Hgen. apply NoDup_nil_2.
Qed.

(** Without a match the loops change nothing. *)
Lemma keywordLoop_no_match KEYWORDS lowerContent initial :
  (forall category keywords keyword,
     (category, keywords) ∈ KEYWORDS -> keyword ∈ keywords ->
     Headless.countMatches keyword lowerContent = 0%Z) ->
  Headless.keywordLoop KEYWORDS lowerContent initial = (initial, []).
Proof.
  unfold Headless.keywordLoop. generalize (initial, @nil string). intros acc.
  induction KEYWORDS as [|[category keywords] KEYWORDS IH]; intros Hzero; simpl; [done|].
  assert (fold_left (Headless.keywordStep lowerContent category) keywords acc = acc) as ->.
  { assert (Hk : forall keyword, keyword ∈ keywords ->
                   Headless.countMatches keyword lowerContent = 0%Z).
    { intros keyword ?. eapply Hzero; [by left|done]. }
    clear Hzero IH. induction keywords as [|keyword keywords IHk]; simpl; [done|].
    assert (Headless.keywordStep lowerContent category acc keyword = acc) as ->.
    { unfold Headless.keywordStep. destruct acc. rewrite Hk by (by left). done. }
    apply IHk. intros k ?. apply Hk. by right. }
  apply IH. intros c ks k ? ?. eapply Hzero; [by right|done].
Qed.

Lemma report_keywords helpers now url content apiType score found apis r :
  Headless.report helpers now url content apiType score found = Returned apis ->
  r ∈ apis -> keywords_found r = take 10 found.
Proof.
  unfold Headless.report. destruct (Headless.parseURL helpers url None); [|done].
  by intros [= <-] ->%list_elem_of_singleton.
Qed.

(** Every count of the initial object of the second analyzer is 0. *)
Lemma initial_counts (KEYWORDS : list (string * list string)) k :
  Headless.orZero
    (Headless.countOf
       (fold_left (fun km '(category, _) => JsMap.set category (Some 0%Z) km) KEYWORDS []) k)
  = 0%Z.
Proof.
  assert (Hgen : forall km : list (string * Headless.JsNum),
             Headless.orZero (Headless.countOf km k) = 0%Z ->
             Headless.orZero
               (Headless.countOf
                  (fold_left (fun km '(category, _) => JsMap.set category (Some 0%Z) km)
                             KEYWORDS km) k) = 0%Z).
  { induction KEYWORDS as [|[category keywords] KEYWORDS IH]; intros km Hkm; simpl; [done|].
    apply IH. unfold Headless.countOf in *.
    destruct (decide (category = k)) as [->|Hne].
    - by rewrite get_set_eq.
    - by rewrite get_set_ne. }
  by apply Hgen.
Qed.

(** C7. A page whose text matches no keyword is not API related and adds
    no record: in the client engine the score is 0, or 0.2 for an API-like
    URL, which is not above 0.2, and the crawl step leaves the lists of
    records and of related pages as they are; both analyzers of the scraper
    return no record. *)
Theorem no_keywords_no_records :
  (forall World (platform : Client.Platform World) w url baseDomain w' pageResult html doc,
     Client.fetchPage platform w url = (w', Returned (html, doc)) ->
     Client.findKeywords (toLowerCase (doc_bodyText doc)) = [] ->
     Client.analyzePage platform w url baseDomain = (w', Returned pageResult) ->
     Client.isApiRelated pageResult = false) /\
  (forall World (platform : Client.Platform World) engine baseDomain s s' e rest w' html doc,
     Client.toVisit s = e :: rest ->
     Client.fetchPage platform (Client.world s) (entry_url e) = (w', Returned (html, doc)) ->
     Client.findKeywords (toLowerCase (doc_bodyText doc)) = [] ->
     Client.step platform engine baseDomain s = Some s' ->
     Client.discoveredApis s' = Client.discoveredApis s /\
     Client.apiRelatedPages s' = Client.apiRelatedPages s) /\
  (forall helpers now url content title,
     (forall category keywords keyword,
        (category, keywords) ∈ Headless.KEYWORDS helpers -> keyword ∈ keywords ->
        Headless.countMatches keyword (toLowerCase content) = 0%Z) ->
     Headless.analyzePageContent helpers now url content title = Returned [] /\
     Headless.analyzePageContent2 helpers now url content title = Returned []).
Proof.
  assert (Hzero : forall World (platform : Client.Platform World) w url baseDomain w'
                         pageResult html doc,
             Client.fetchPage platform w url = (w', Returned (html, doc)) ->
             Client.findKeywords (toLowerCase (doc_bodyText doc)) = [] ->
             Client.analyzePage platform w url baseDomain = (w', Returned pageResult) ->
             Client.isApiRelated pageResult = false).
  { intros World platform w url baseDomain w' pageResult html doc Hfetch Hnone Hpage.
    destruct (analyzePage_fields _ _ _ _ _ _ _ _ Hfetch Hpage) as (_ & Hscore & ->).
    rewrite Hscore, Hnone. unfold Client.calculateRelevance. simpl.
    by destruct (Client.isApiRelatedUrl url). }
  split_and!; [exact Hzero| |].
  - intros World platform engine baseDomain s s' e rest w' html doc Hq Hfetch Hnone.
    unfold Client.step. destruct (negb _); [done|]. rewrite Hq.
    destruct (_ || _); [by intros [= <-]|].
    destruct (Client.analyzePage _ _ _ _) as [w'' [pageResult|m]] eqn:Hpage;
      [|by intros [= <-]].
    assert (w'' = w') as ->.
    { unfold Client.analyzePage in Hpage. rewrite Hfetch in Hpage.
      destruct (Client.extractLinks _ _ _ _); by injection Hpage. }
    rewrite (Hzero _ _ _ _ _ _ _ _ _ Hfetch Hnone Hpage).
    intros [= <-]. simpl. by rewrite app_nil_r.
  - intros helpers now url content title Hnone. split.
    + unfold Headless.analyzePageContent.
      by rewrite keywordLoop_no_match.
    + unfold Headless.analyzePageContent2.
      rewrite keywordLoop_no_match by done.
      by rewrite !initial_counts.
Qed.

(** The page of the example site about branches holds no keyword. *)
Lemma no_keywords_no_records_witness :
  let pageResult :=
    {| Client.pr_url := "https://bank.example/about";
       Client.pr_title := "About";
       Client.isApiRelated := false;
       Client.relevanceScore := 0.0%Q;
       Client.keywordsFound := [];
       Client.links := [];
       Client.apiDocumentationUrls := [];
       Client.swaggerUrls := [];
       Client.pr_textContent := "our branches and opening hours." |} in
  Client.isApiRelated pageResult = false.
Proof.
  intros pageResult.
  apply (proj1 no_keywords_no_records nat Demo.clientPlatform 0%nat
           "https://bank.example/about" "https://bank.example" 1%nat pageResult ""
           Demo.aboutDoc).
  - reflexivity.
  - vm_compute. reflexivity.
  - vm_compute. reflexivity.
Defined.

(** C10. Every record that an analyzer of the scraper returns holds in
    [keywords_found] the first 10 of the distinct keywords that matched on
    the page, so at most 10 of them, however many matched. *)
Theorem keywords_found_truncated :
  forall helpers now url content title apis r,
    Headless.analyzePageContent helpers now url content title = Returned apis \/
    Headless.analyzePageContent2 helpers now url content title = Returned apis ->
    r ∈ apis ->
    keywords_found r
    = take 10 (Headless.matchedKeywords (Headless.KEYWORDS helpers) (toLowerCase content)) /\
    (length (keywords_found r) <= 10)%nat /\
    NoDup (keywords_found r).
Proof.
  intros helpers now url content title apis r Hres Hr.
  assert (Hkw : keywords_found r
                = take 10 (Headless.matchedKeywords (Headless.KEYWORDS helpers)
                             (toLowerCase content))).
  { destruct Hres as [Hres|Hres].
    - unfold Headless.analyzePageContent in Hres.
      destruct (Headless.keywordLoop _ _ _) as [km found] eqn:Hloop.
      assert (found = Headless.matchedKeywords (Headless.KEYWORDS helpers)
                        (toLowerCase content)) as Hfound.
      { rewrite <- (keywordLoop_found _ _
                      [("psd2", Some 0%Z); ("ais", Some 0%Z); ("pis", Some 0%Z);
                       ("caf", Some 0%Z)]). by rewrite Hloop. }
      destruct (fold_left Headless.jsAdd _ _) as [total|];
        [|injection Hres as <-; by apply elem_of_nil in Hr].
      destruct (total =? 0)%Z; [injection Hres as <-; by apply elem_of_nil in Hr|].
      destruct (Qgeb _ _); [|injection Hres as <-; by apply elem_of_nil in Hr].
      rewrite <- Hfound. by eapply report_keywords.
    - unfold Headless.analyzePageContent2 in Hres.
      destruct (Headless.keywordLoop _ _ _) as [km found] eqn:Hloop.
      assert (found = Headless.matchedKeywords (Headless.KEYWORDS helpers)
                        (toLowerCase content)) as Hfound.
      { rewrite <- (keywordLoop_found _ _
                      (fold_left (fun km '(category, _) => JsMap.set category (Some 0%Z) km)
                                 (Headless.KEYWORDS helpers) [])). by rewrite Hloop. }
      destruct (_ && _); [injection Hres as <-; by apply elem_of_nil in Hr|].
      destruct (Qgeb _ _); [|injection Hres as <-; by apply elem_of_nil in Hr].
      rewrite <- Hfound. by eapply report_keywords. }
  rewrite Hkw. split_and!; [done| |].
  - rewrite length_take. lia.
  - eapply sublist_NoDup; [apply matchedKeywords_NoDup|apply sublist_take].
Qed.

(** On a page where fourteen keywords match, the record holds the first
    ten. *)
Lemma keywords_found_truncated_witness :
  length (Headless.matchedKeywords (Headless.KEYWORDS Demo.helpers)
            (toLowerCase Demo.richContent)) = 14%nat /\
  keywords_found Demo.richRecord
  = take 10 (Headless.matchedKeywords (Headless.KEYWORDS Demo.helpers)
               (toLowerCase Demo.richContent)) /\
  (length (keywords_found Demo.richRecord) <= 10)%nat /\
  NoDup (keywords_found Demo.richRecord).
Proof.
  split; [vm_compute; reflexivity|].
  apply (keywords_found_truncated Demo.helpers "2024-01-01T00:00:00.000Z"
           "https://bank.example/psd2" Demo.richContent "PSD2" [Demo.richRecord]).
  - left. vm_compute. reflexivity.
  - by left.
Defined.

(** ** Fragments in extracted links *)

Lemma includes_char c s : includes s (String c EmptyString) = negb (lacks c s).
Proof.
  induction s as [|d s IH]; [done|].
  cbn [includes lacks String.prefix]. rewrite IH.
  destruct (ascii_dec c d) as [->|Hne].
  - rewrite Ascii.eqb_refl. by destruct s.
  - destruct (Ascii.eqb_spec d c) as [->|_]; done.
Qed.

Lemma lacks_append c a b : lacks c (a +:+ b) = lacks c a && lacks c b.
Proof. induction a as [|d a IH]; simpl; [done|]. by rewrite IH, andb_assoc. Qed.

Lemma href_clearHash_lacks u : urlWf u -> lacks "#" (href (clearHash u)) = true.
Proof.
  intros (Hp & Hh & Ha). unfold href, clearHash. simpl.
  rewrite !lacks_append, Hp, Hh, Ha. done.
Qed.

Lemma substring_lacks c n m s : lacks c s = true -> lacks c (String.substring n m s) = true.
Proof.
  revert n m. induction s as [|d s IH]; intros n m; simpl.
  - by destruct n, m.
  - intros [Hd Hs]%andb_prop. destruct n as [|n].
    + destruct m as [|m]; simpl; [done|]. by rewrite Hd, IH.
    + by apply IH.
Qed.

Lemma breakAt_lacks stop c s :
  lacks c s = true ->
  lacks c (fst (Demo.breakAt stop s)) = true /\ lacks c (snd (Demo.breakAt stop s)) = true.
Proof.
  induction s as [|d s IH]; simpl; [done|].
  intros [Hd Hs]%andb_prop. destruct (stop d); simpl.
  - by rewrite Hd, Hs.
  - destruct (Demo.breakAt stop s) as [a b]. simpl in *.
    destruct (IH Hs) as [-> ->]. by rewrite Hd.
Qed.

Lemma breakAt_before c s : lacks c (fst (Demo.breakAt (Ascii.eqb c) s)) = true.
Proof.
  induction s as [|d s IH]; simpl; [done|].
  destruct (Ascii.eqb_spec c d) as [->|Hne]; simpl; [done|].
  destruct (Demo.breakAt (Ascii.eqb c) s) as [a b]. simpl in *.
  rewrite IH, andb_true_r. by destruct (Ascii.eqb_spec d c) as [->|].
Qed.

Lemma parseAbsolute_wf s fragment u :
  lacks "#" s = true -> Demo.parseAbsolute s fragment = Some u -> urlWf u.
Proof.
  intros Hs. unfold Demo.parseAbsolute.
  destruct (breakAt_lacks (Ascii.eqb ":") "#" s Hs) as [Hscheme Hrest].
  destruct (Demo.breakAt (Ascii.eqb ":") s) as [scheme rest]. simpl in *.
  destruct (_ && _); [|done].
  pose proof (substring_lacks "#" 3 (String.length rest) rest Hrest) as Hsub.
  destruct (breakAt_lacks (fun c => Ascii.eqb c "/" || Ascii.eqb c "?") "#" _ Hsub)
    as [Hhost Hpath].
  destruct (Demo.breakAt _ (String.substring _ _ _)) as [host path]. simpl in *.
  destruct (String.eqb host ""); [done|]. intros [= <-]. unfold urlWf. simpl.
  rewrite lacks_append, Hscheme. split_and!; [done..|].
  by destruct (String.eqb path "").
Qed.

(** The example parser keeps [#] out of scheme, host and path. *)
Lemma demo_parseURL_wf input base u : Demo.parseURL input base = Returned u -> urlWf u.
Proof.
  unfold Demo.parseURL.
  pose proof (breakAt_before "#" input) as Hs.
  destruct (Demo.breakAt (Ascii.eqb "#") input) as [s fragment]. simpl in Hs.
  destruct (Demo.parseAbsolute s _) as [u'|] eqn:Habs.
  - intros [= <-]. by eapply parseAbsolute_wf.
  - destruct base as [b|]; [|done].
    destruct (Demo.parseAbsolute (fst _) "") as [bu|] eqn:Hbase; [|done].
    destruct (String.prefix "/" s); [|done]. intros [= <-].
    apply parseAbsolute_wf in Hbase as (Hp & Hh & _); [|apply breakAt_before].
    by split_and!.
Qed.

Lemma elem_of_add x y l : x ∈ JsSet.add y l -> x ∈ l \/ x = y.
Proof.
  unfold JsSet.add. destruct (JsSet.has y l); [by left|].
  intros [?| ->]%elem_of_snoc; [by left|by right].
Qed.

Lemma hrefRun_lacks s : lacks "#" (fst (Headless.hrefRun s)) = true.
Proof.
  induction s as [|c s IH]; simpl; [done|].
  destruct (Headless.isQuote c || Ascii.eqb c "#") eqn:Hstop; simpl; [done|].
  destruct (Headless.hrefRun s) as [run rest]. simpl in *.
  apply orb_false_elim in Hstop as [_ ->]. by rewrite IH.
Qed.

Lemma matchHrefAt_lacks s capture len :
  Headless.matchHrefAt s = Some (capture, len) -> lacks "#" capture = true.
Proof.
  unfold Headless.matchHrefAt. destruct (String.prefix _ _); [|done].
  destruct (String.substring 5 _ s) as [|q after]; [done|].
  destruct (Headless.isQuote q); [|done].
  pose proof (hrefRun_lacks after) as Hrun.
  destruct (Headless.hrefRun after) as [[|c run] [|q' rest]]; try done.
  destruct (Headless.isQuote q'); [|done]. by intros [= <- _].
Qed.

Lemma hrefCaptures_lacks skip content capture :
  capture ∈ Headless.hrefCaptures skip content -> lacks "#" capture = true.
Proof.
  revert skip. induction content as [|c content IH]; intros skip; simpl;
    [by intros ?%elem_of_nil|].
  destruct skip as [|k]; [|apply IH].
  destruct (Headless.matchHrefAt (String c content)) as [[cap len]|] eqn:Hm; [|apply IH].
  intros [->|?]%elem_of_cons; [by eapply matchHrefAt_lacks|by eapply IH].
Qed.

(** C8 (as amended). No URL that a link extractor returns contains a
    fragment. The client extractor strips it: each link is a resolved
    [href] serialised with an empty hash. The extractor of the scraper
    instead never looks at an [href] that contains [#]: each link is the
    resolution of an attribute value without [#], so a link written with a
    fragment is left out, not added without it. *)
Theorem links_without_fragment :
  (forall World (platform : Client.Platform World) doc baseDomain currentUrl links link,
     (forall input base u, Client.parseURL platform input base = Returned u -> urlWf u) ->
     Client.extractLinks platform doc baseDomain currentUrl = Returned links ->
     link ∈ links ->
     includes link "#" = false /\
     exists a u, a ∈ doc_anchors doc /\
                 Client.parseURL platform (a_href a) (Some currentUrl) = Returned u /\
                 link = href (clearHash u)) /\
  (forall helpers baseUrl content link,
     link ∈ Headless.extractLinks helpers baseUrl content ->
     includes link "#" = false /\
     exists capture u, capture ∈ Headless.hrefCaptures 0 content /\
                       lacks "#" capture = true /\
                       Headless.parseURL helpers capture (Some baseUrl) = Returned u /\
                       link = href u).
Proof.
  split.
  - intros World platform doc baseDomain currentUrl links link Hwf.
    unfold Client.extractLinks.
    destruct (Client.parseURL platform baseDomain None) as [base|m]; [|done].
    intros [= <-] Hin.
    assert (Hstripped : exists a u, a ∈ doc_anchors doc /\
                Client.parseURL platform (a_href a) (Some currentUrl) = Returned u /\
                link = href (clearHash u)).
    { revert Hin. generalize (doc_anchors doc) as anchors.
      assert (Hgen : forall anchors acc,
                 link ∈ fold_left
                   (fun links a =>
                      let h := a_href a in
                      if String.eqb h "" || startsWith h "#" || startsWith h "javascript:"
                      then links
                      else match Client.parseURL platform h (Some currentUrl) with
                           | Threw _ => links
                           | Returned fullUrl =>
                               if String.eqb (hostname fullUrl) (hostname base)
                               then JsSet.add (href (clearHash fullUrl)) links
                               else links
                           end) anchors acc ->
                 link ∈ acc \/
                 exists a u, a ∈ anchors /\
                   Client.parseURL platform (a_href a) (Some currentUrl) = Returned u /\
                   link = href (clearHash u)).
      { induction anchors as [|a anchors IH]; intros acc; simpl; [by left|].
        intros [Hacc|(a' & u & ? & ? & ?)]%IH.
        - destruct (_ || _); [by left|].
          destruct (Client.parseURL platform (a_href a) _) as [u|] eqn:Hu; [|by left].
          destruct (String.eqb _ _); [|by left].
          apply elem_of_add in Hacc as [?| ->]; [by left|].
          right. exists a, u. split_and!; [by left|done..].
        - right. exists a', u. split_and!; [by right|done..]. }
      intros anchors [[]%elem_of_nil|?]%Hgen. done. }
    split; [|done]. destruct Hstripped as (a & u & _ & Hu & ->).
    change "#" with (String "#"%char EmptyString).
    rewrite includes_char, href_clearHash_lacks; [done|by eapply Hwf].
  - intros helpers baseUrl content link. unfold Headless.extractLinks.
    set (Q := fun l : string =>
                includes l "#" = false /\
                exists capture u, capture ∈ Headless.hrefCaptures 0 content /\
                  lacks "#" capture = true /\
                  Headless.parseURL helpers capture (Some baseUrl) = Returned u /\
                  l = href u).
    assert (Hgen : forall captures acc,
               (forall c, c ∈ captures -> c ∈ Headless.hrefCaptures 0 content) ->
               (forall l, l ∈ acc -> Q l) ->
               forall l,
               l ∈ fold_left
                 (fun links capture =>
                    match Headless.parseURL helpers capture (Some baseUrl) with
                    | Threw _ => links
                    | Returned u =>
                        let link := href u in
                        let linkDomain := Headless.getBaseDomain helpers link in
                        if String.eqb linkDomain (Headless.getBaseDomain helpers baseUrl)
                           && negb (includes link "#")
                        then if negb (existsb (fun ext => endsWith (toLowerCase link) ext)
                                              Headless.skipExtensions)
                             then JsSet.add link links else links
                        else links
                    end) captures acc ->
               Q l).
    { induction captures as [|c captures IH]; intros acc Hsub Hacc l; cbn [fold_left];
        [apply Hacc|].
      apply IH; [intros c' ?; apply Hsub; by right|].
      intros l' Hl'.
      destruct (Headless.parseURL helpers c (Some baseUrl)) as [u|] eqn:Hu; [|by apply Hacc].
      cbv zeta in Hl'.
      destruct (String.eqb _ _); cbn [andb] in Hl'; [|by apply Hacc].
      destruct (includes (href u) "#") eqn:Hinc; cbn [negb] in Hl'; [by apply Hacc|].
      destruct (negb (existsb _ _)); [|by apply Hacc].
      apply elem_of_add in Hl' as [?| ->]; [by apply Hacc|].
      split; [done|]. exists c, u.
      assert (c ∈ Headless.hrefCaptures 0 content) by (apply Hsub; by left).
      split_and!; [done| |done..]. by eapply hrefCaptures_lacks. }
    apply Hgen; [done|by intros l ?%elem_of_nil].
Qed.

(** On the home page of the example site the client engine turns the link
    to [/docs/overview#section] into one to [/docs/overview]. *)
Lemma links_without_fragment_witness :
  Client.extractLinks Demo.clientPlatform Demo.homeDoc "https://bank.example"
    "https://bank.example/"
  = Returned ["https://bank.example/docs/overview"; "https://bank.example/about"] /\
  includes "https://bank.example/docs/overview" "#" = false /\
  exists a u, a ∈ doc_anchors Demo.homeDoc /\
              Demo.parseURL (a_href a) (Some "https://bank.example/") = Returned u /\
              "https://bank.example/docs/overview" = href (clearHash u).
Proof.
  split; [vm_compute; reflexivity|].
  apply (proj1 links_without_fragment nat Demo.clientPlatform Demo.homeDoc
           "https://bank.example" "https://bank.example/"
           ["https://bank.example/docs/overview"; "https://bank.example/about"]).
  - exact demo_parseURL_wf.
  - vm_compute. reflexivity.
  - by left.
Defined.

(** C8, as stated, fails for the scraper: [hrefPattern] does not match an
    [href] that holds a fragment, so the link to [/docs/overview#section]
    is not added as [/docs/overview]; it is not added at all. *)
Lemma fragment_link_counterexample :
  let content := "<a href='https://bank.example/docs/overview#section'>Docs</a>" in
  Headless.hrefCaptures 0 content = [] /\
  Headless.extractLinks Demo.helpers "https://bank.example/" content = [] /\
  "https://bank.example/docs/overview"
    ∉ Headless.extractLinks Demo.helpers "https://bank.example/" content.
Proof.
  assert (H : Headless.extractLinks Demo.helpers "https://bank.example/"
                "<a href='https://bank.example/docs/overview#section'>Docs</a>" = [])
    by (vm_compute; reflexivity).
  split_and!; [vm_compute; reflexivity|exact H|].
  cbv zeta. rewrite H. apply not_elem_of_nil.
Qed.

(** ** Scanning several sites *)

Section ClientSites.
Context {World : Type} (platform : Client.Platform World) (engine : Client.Engine).

Lemma client_runLoop_more baseDomain fuel fuel' s s' :
  Client.runLoop platform engine baseDomain fuel s = Some s' -> (fuel <= fuel')%nat ->
  Client.runLoop platform engine baseDomain fuel' s = Some s'.
Proof.
  revert fuel' s. induction fuel as [|fuel IH]; intros fuel' s; simpl.
  - destruct (Client.step _ _ _ s) eqn:Hstep; [done|]. intros [= <-] _.
    destruct fuel'; simpl; by rewrite Hstep.
  - destruct (Client.step _ _ _ s) as [s1|] eqn:Hstep.
    + intros Hrun Hle. destruct fuel' as [|fuel']; [lia|]. simpl. rewrite Hstep.
      apply IH; [done|lia].
    + intros [= <-] _. destruct fuel'; simpl; by rewrite Hstep.
Qed.

Lemma client_scan_more fuel fuel' w url out :
  Client.scanWebsite platform engine fuel w url = Some out -> (fuel <= fuel')%nat ->
  Client.scanWebsite platform engine fuel' w url = Some out.
Proof.
  unfold Client.scanWebsite. destruct (Client.parseURL platform url None); [|done].
  destruct (Client.runLoop _ _ _ fuel _) as [s|] eqn:Hrun; [|done].
  intros [= <-] Hle. by rewrite (client_runLoop_more _ _ _ _ _ Hrun Hle).
Qed.

Lemma client_discoverLoop_more fuel fuel' w urls allApis results out :
  Client.discoverLoop platform engine fuel w urls allApis results = Some out ->
  (fuel <= fuel')%nat ->
  Client.discoverLoop platform engine fuel' w urls allApis results = Some out.
Proof.
  revert w allApis results. induction urls as [|url urls IH]; intros w allApis results;
    simpl; [done|].
  destruct (Client.scanWebsite _ _ fuel w url) as [[w' c]|] eqn:Hscan; [|done].
  intros Hloop Hle. rewrite (client_scan_more _ _ _ _ _ Hscan Hle).
  destruct c; by apply IH.
Qed.

Lemma client_discoverLoop_terminates w urls allApis results :
  exists fuel, is_Some (Client.discoverLoop platform engine fuel w urls allApis results).
Proof.
  revert w allApis results. induction urls as [|url urls IH]; intros w allApis results.
  - by exists 0%nat.
  - destruct (client_scan_terminates platform engine w url) as (fuel1 & [w' c] & Hscan).
    assert (Hrest : exists fuel allApis' results',
               is_Some (Client.discoverLoop platform engine fuel w' urls allApis' results') /\
               forall fuel', (fuel1 <= fuel')%nat ->
                 Client.discoverLoop platform engine fuel' w (url :: urls) allApis results
                 = Client.discoverLoop platform engine fuel' w' urls allApis' results').
    { destruct c as [result|message].
      - destruct (IH w' (allApis ++ res_apis result) (results ++ [result])) as (fuel2 & H2).
        eexists fuel2, _, _. split; [exact H2|]. intros fuel' Hle. simpl.
        by rewrite (client_scan_more _ _ _ _ _ Hscan Hle).
      - destruct (IH w' allApis (results ++ [errorResult url message])) as (fuel2 & H2).
        eexists fuel2, _, _. split; [exact H2|]. intros fuel' Hle. simpl.
        by rewrite (client_scan_more _ _ _ _ _ Hscan Hle). }
    destruct Hrest as (fuel2 & allApis' & results' & [out Hout] & Heq).
    exists (fuel1 `max` fuel2)%nat. rewrite Heq by lia.
    rewrite (client_discoverLoop_more fuel2 _ _ _ _ _ _ Hout); [done|lia].
Qed.

Lemma client_discoverLoop_outcomes fuel w urls allApis results w' allApis' results' :
  Client.discoverLoop platform engine fuel w urls allApis results
    = Some (w', allApis', results') ->
  exists outcomes,
    siteOutcomes (Client.scanWebsite platform engine fuel) w urls = Some outcomes /\
    results' = results ++ zip_with resultOf urls outcomes /\
    length outcomes = length urls.
Proof.
  revert w allApis results. induction urls as [|url urls IH]; intros w allApis results; simpl.
  - intros [= <- <- <-]. exists []. by rewrite app_nil_r.
  - destruct (Client.scanWebsite _ _ fuel w url) as [[w1 c]|]; [|done].
    destruct c as [result|message]; intros (outcomes & -> & -> & Hlen)%IH;
      eexists; (split; [done|]); simpl; rewrite <- app_assoc; by rewrite Hlen.
Qed.

End ClientSites.

Section HeadlessSites.
Context {World : Type} (helpers : Headless.Helpers) (browser : Headless.Browser World).
Context (options : Headless.Options).

Lemma headless_runLoop_more fuel fuel' s :
  Headless.runLoop helpers browser options fuel s <> Headless.OutOfFuel ->
  (fuel <= fuel')%nat ->
  Headless.runLoop helpers browser options fuel' s
  = Headless.runLoop helpers browser options fuel s.
Proof.
  revert fuel' s. induction fuel as [|fuel IH]; intros fuel' s; simpl.
  - destruct (Headless.step _ _ _ s) eqn:Hstep; [|done|];
      intros _ _; destruct fuel'; simpl; by rewrite Hstep.
  - destruct (Headless.step _ _ _ s) as [|s1|] eqn:Hstep.
    + intros _ _. destruct fuel'; simpl; by rewrite Hstep.
    + intros Hrun Hle. destruct fuel' as [|fuel']; [lia|]. simpl. rewrite Hstep.
      apply IH; [done|lia].
    + intros _ _. destruct fuel'; simpl; by rewrite Hstep.
Qed.

Lemma headless_crawl_more fuel fuel' w url out :
  Headless.crawlSite helpers browser options fuel w url = Some out -> (fuel <= fuel')%nat ->
  Headless.crawlSite helpers browser options fuel' w url = Some out.
Proof.
  unfold Headless.crawlSite. destruct (Headless.newContext browser w) as [w0 [[]|m]]; [|done].
  intros Hout Hle. rewrite (headless_runLoop_more fuel fuel'); [done| |done].
  by destruct (Headless.runLoop _ _ _ fuel _).
Qed.

Lemma headless_scrapeLoop_more fuel fuel' w urls allApis results out :
  Headless.scrapeLoop helpers browser options fuel w urls allApis results = Some out ->
  (fuel <= fuel')%nat ->
  Headless.scrapeLoop helpers browser options fuel' w urls allApis results = Some out.
Proof.
  revert w allApis results. induction urls as [|url urls IH]; intros w allApis results;
    simpl; [done|].
  destruct (Headless.crawlSite _ _ _ fuel w url) as [[w' c]|] eqn:Hcrawl; [|done].
  intros Hloop Hle. rewrite (headless_crawl_more _ _ _ _ _ Hcrawl Hle).
  destruct c; by apply IH.
Qed.

Lemma headless_scrapeLoop_terminates w urls allApis results :
  exists fuel, is_Some (Headless.scrapeLoop helpers browser options fuel w urls allApis results).
Proof.
  revert w allApis results. induction urls as [|url urls IH]; intros w allApis results.
  - by exists 0%nat.
  - destruct (headless_crawl_terminates helpers browser options w url)
      as (fuel1 & [w' c] & Hcrawl).
    assert (Hrest : exists fuel allApis' results',
               is_Some (Headless.scrapeLoop helpers browser options fuel w' urls
                          allApis' results') /\
               forall fuel', (fuel1 <= fuel')%nat ->
                 Headless.scrapeLoop helpers browser options fuel' w (url :: urls)
                   allApis results
                 = Headless.scrapeLoop helpers browser options fuel' w' urls
                     allApis' results').
    { destruct c as [result|message].
      - destruct (IH w' (allApis ++ res_apis result) (results ++ [result])) as (fuel2 & H2).
        eexists fuel2, _, _. split; [exact H2|]. intros fuel' Hle. simpl.
        by rewrite (headless_crawl_more _ _ _ _ _ Hcrawl Hle).
      - destruct (IH w' allApis (results ++ [errorResult url message])) as (fuel2 & H2).
        eexists fuel2, _, _. split; [exact H2|]. intros fuel' Hle. simpl.
        by rewrite (headless_crawl_more _ _ _ _ _ Hcrawl Hle). }
    destruct Hrest as (fuel2 & allApis' & results' & [out Hout] & Heq).
    exists (fuel1 `max` fuel2)%nat. rewrite Heq by lia.
    rewrite (headless_scrapeLoop_more fuel2 _ _ _ _ _ _ Hout); [done|lia].
Qed.

Lemma headless_scrapeLoop_outcomes fuel w urls allApis results w' allApis' results' :
  Headless.scrapeLoop helpers browser options fuel w urls allApis results
    = Some (w', allApis', results') ->
  exists outcomes,
    siteOutcomes (Headless.crawlSite helpers browser options fuel) w urls = Some outcomes /\
    results' = results ++ zip_with resultOf urls outcomes /\
    length outcomes = length urls.
Proof.
  revert w allApis results. induction urls as [|url urls IH]; intros w allApis results; simpl.
  - intros [= <- <- <-]. exists []. by rewrite app_nil_r.
  - destruct (Headless.crawlSite _ _ _ fuel w url) as [[w1 c]|]; [|done].
    destruct c as [result|message]; intros (outcomes & -> & -> & Hlen)%IH;
      eexists; (split; [done|]); simpl; rewrite <- app_assoc; by rewrite Hlen.
Qed.

End HeadlessSites.

(** C9 (as amended). The multi-site loops of both engines end without an
    exception and give one result per seed, in order: the result of the
    seed's crawl, or, when that crawl throws, the error result with the
    message of the exception, no page and no record; the seeds after it
    are scanned all the same. In the client engine a seed that does not
    parse makes the crawl throw. In the scraper a browser context that
    cannot be opened does, but a seed that cannot be loaded does not: the
    crawl returns a result with status success, no page and no record. *)
Theorem multi_site_scan :
  (forall url message,
     resultOf url (Threw message)
     = {| res_url := url; res_status := StatusError; res_error := Some message;
          res_pagesScanned := 0; res_apiRelatedPages := []; res_apis := [] |}) /\
  (forall World (platform : Client.Platform World) engine w urls,
     (exists fuel, is_Some (Client.discoverApis platform engine fuel w urls)) /\
     (forall fuel w' report,
        Client.discoverApis platform engine fuel w urls = Some (w', report) ->
        exists outcomes,
          siteOutcomes (Client.scanWebsite platform engine fuel) w urls = Some outcomes /\
          Client.scanResults report = zip_with resultOf urls outcomes /\
          length (Client.scanResults report) = length urls) /\
     (forall fuel url message,
        Client.parseURL platform url None = Threw message ->
        Client.scanWebsite platform engine fuel w url = Some (w, Threw message))) /\
  (forall World helpers (browser : Headless.Browser World) options w urls,
     (exists fuel, is_Some (Headless.scrapeLoop helpers browser options fuel w urls [] [])) /\
     (forall fuel w' allApis results,
        Headless.scrapeLoop helpers browser options fuel w urls [] []
          = Some (w', allApis, results) ->
        exists outcomes,
          siteOutcomes (Headless.crawlSite helpers browser options fuel) w urls
            = Some outcomes /\
          results = zip_with resultOf urls outcomes /\
          length results = length urls) /\
     (forall fuel url w0 message,
        Headless.newContext browser w = (w0, Threw message) ->
        Headless.crawlSite helpers browser options fuel w url = Some (w0, Threw message)) /\
     (forall fuel url w0 w1 w2 w3 w4 message,
        (0 < Headless.maxPagesPerSite options)%Q ->
        Headless.newContext browser w = (w0, Returned tt) ->
        Headless.newPage browser w0 = (w1, Returned tt) ->
        Headless.loadPage browser w1 url = (w2, Threw message) ->
        Headless.closePage browser w2 = (w3, Returned tt) ->
        Headless.closeContext browser w3 = (w4, Returned tt) ->
        Headless.crawlSite helpers browser options (S fuel) w url
        = Some (w4, Returned {| res_url := url; res_status := StatusSuccess;
                                res_error := None; res_pagesScanned := 0;
                                res_apiRelatedPages := []; res_apis := [] |}))).
Proof.
  split_and!; [done| |].
  - intros World platform engine w urls. split_and!.
    + destruct (client_discoverLoop_terminates platform engine w urls [] [])
        as (fuel & [[[w' allApis] results] Hloop]).
      exists fuel. unfold Client.discoverApis. by rewrite Hloop.
    + intros fuel w' report. unfold Client.discoverApis.
      destruct (Client.discoverLoop _ _ _ _ _ _ _) as [[[w1 allApis] results]|] eqn:Hloop;
        [|done].
      intros [= <- <-]. simpl.
      apply client_discoverLoop_outcomes in Hloop as (outcomes & Hout & -> & Hlen).
      exists outcomes. split_and!; [done..|].
      simpl. rewrite length_zip_with. lia.
    + intros fuel url message Hparse. unfold Client.scanWebsite. by rewrite Hparse.
  - intros World helpers browser options w urls. split_and!.
    + apply headless_scrapeLoop_terminates.
    + intros fuel w' allApis results
        (outcomes & Hout & -> & Hlen)%headless_scrapeLoop_outcomes.
      exists outcomes. split_and!; [done..|].
      simpl. rewrite length_zip_with. lia.
    + intros fuel url w0 message Hctx. unfold Headless.crawlSite. by rewrite Hctx.
    + intros fuel url w0 w1 w2 w3 w4 message Hbudget Hctx Hpage Hload Hclose Hend.
      change 0%Q with (inject_Z 0) in Hbudget. apply belowLimit_lt in Hbudget.
      unfold Headless.crawlSite. rewrite Hctx.
      assert (Headless.step helpers browser options (Headless.initialState w0 url)
              = Headless.Next
                  {| Headless.visited := {[url]} ∪ ∅; Headless.toVisit := [];
                     Headless.apis := []; Headless.apiRelatedPages := [];
                     Headless.pagesScanned := 0;
                     Headless.processed := [] ++ [ {| entry_url := url; entry_depth := 0 |} ];
                     Headless.world := w3 |}) as Hfirst.
      { unfold Headless.step, Headless.loopCondition, Headless.initialState, Headless.closing.
        simpl. rewrite Hbudget. simpl.
        rewrite bool_decide_eq_false_2 by set_solver.
        rewrite Hpage, Hload. simpl. by rewrite Hclose. }
      simpl. rewrite Hfirst.
      assert (forall s, Headless.toVisit s = [] ->
                Headless.step helpers browser options s = Headless.Exit) as Hlast.
      { intros s Hs. unfold Headless.step, Headless.loopCondition. by rewrite Hs. }
      assert (forall n s, Headless.toVisit s = [] ->
                Headless.runLoop helpers browser options n s = Headless.Finished s) as Hstop.
      { intros n s Hs. destruct n; cbn [Headless.runLoop]; by rewrite Hlast. }
      rewrite Hstop by done. cbn [Headless.world]. rewrite Hend.
      reflexivity.
Qed.

(** Between two seeds of the example site, one that does not parse gets
    the error result and the one after it is scanned. *)
Lemma multi_site_scan_witness :
  let engine := {| Client.maxDepth := 1%Q; Client.maxPages := 2%Q |} in
  exists w' report,
    Client.discoverApis Demo.clientPlatform engine 5 0%nat ["not a url"; "https://bank.example/about"]
      = Some (w', report) /\
    map res_status (Client.scanResults report) = [StatusError; StatusSuccess] /\
    map res_pagesScanned (Client.scanResults report) = [0%Z; 1%Z] /\
    Client.scanWebsite Demo.clientPlatform engine 5 0%nat "not a url"
      = Some (0%nat, Threw "Invalid URL").
Proof.
  intros engine. eexists _, _. split_and!; [vm_compute; reflexivity..|].
  apply (proj1 (proj2 multi_site_scan) nat Demo.clientPlatform engine 0%nat
           ["not a url"; "https://bank.example/about"]).
  vm_compute. reflexivity.
Defined.

(** C9, as stated, fails for the scraper: a seed that does not parse is a
    page that fails to load, not a failure of the site, and its result has
    status success instead of error. *)
Lemma unparsable_seed_counterexample :
  let options := {| Headless.maxDepth := 2%Q; Headless.maxPagesPerSite := 5%Q |} in
  Demo.parseURL "not a url" None = Threw "Invalid URL" /\
  exists w' allApis result,
    Headless.scrapeLoop Demo.helpers Demo.browser options 5 0%nat ["not a url"] [] []
      = Some (w', allApis, [result]) /\
    res_status result = StatusSuccess /\
    res_error result = None.
Proof.
  split; [vm_compute; reflexivity|].
  eexists _, _, _. split_and!; [vm_compute; reflexivity|reflexivity..].
Qed.
